(** * Overcooked grid-world environment: a model of [src/overcooked_env/sim.hpp]

    The first half of this development embeds the data model and the inline
    member functions of [sim.hpp] (struct [Object], struct [PlayerState],
    struct [WorldState], the enumerations and the size macros).  Fixed-width
    fields are machine words: [uint8_t] and [int8_t] are both 8-bit words,
    read with [word.unsigned] and [word.signed] respectively, so every value
    of a Rocq record is a value of the C++ struct and conversely.

    The second half models the per-tick engine ([sim.cpp], which is not part
    of the available sources) from the prose specification; each definition
    that stands for missing code says so in its documentation. *)

From Stdlib Require Import ZArith Lia List Bool.
From coqutil Require Import Word.Interface Word.Properties Word.Naive.
From stdpp Require Import base option list.

Local Open Scope Z_scope.

(** ** Machine integers *)

Abbreviation uint8 := (@word.rep 8 Naive.word8) (only parsing).
Abbreviation int8 := (@word.rep 8 Naive.word8) (only parsing).

(** Conversion of a C++ [int] to [uint8_t] / [int8_t]: reduction modulo 2^8. *)
Definition u8 (z : Z) : uint8 := word.of_Z z.
Definition i8 (z : Z) : int8 := word.of_Z z.

(** ** Macros of [sim.hpp] *)

Definition NUM_MOVES : Z := 6.
Definition MAX_SIZE : Z := 256.
Definition MAX_NUM_PLAYERS : Z := 2.
Definition MAX_NUM_INGREDIENTS : Z := 3.
Definition NUM_RECIPES : Z :=
  (MAX_NUM_INGREDIENTS + 1) * (MAX_NUM_INGREDIENTS + 1).

(** ** Enumerations

    Each enumeration is the inductive type of its enumerators. *)

Inductive ActionT : Set := NORTH | SOUTH | EAST | WEST | STAY | INTERACT.
Inductive TerrainT : Set :=
  AIR | POT | COUNTER | ONION_SOURCE | TOMATO_SOURCE | DISH_SOURCE | SERVING.
Inductive ObjectT : Set := NONE | TOMATO | ONION | DISH | SOUP.

Definition ObjectT_eqb (a b : ObjectT) : bool :=
  match a, b with
  | NONE, NONE | TOMATO, TOMATO | ONION, ONION | DISH, DISH | SOUP, SOUP => true
  | _, _ => false
  end.

(** The enumerator values of [ActionT] ([NORTH=0] ... [INTERACT=5]). *)
Definition ActionT_code (a : ActionT) : Z :=
  match a with
  | NORTH => 0 | SOUTH => 1 | EAST => 2 | WEST => 3 | STAY => 4 | INTERACT => 5
  end.

(** ** struct Object *)

Record Object : Type := mkObject {
  name : ObjectT;
  num_onions : uint8;
  num_tomatoes : uint8;
  cooking_tick : int8
}.

(** The default member initialisers: [NONE], 0, 0, -1. *)
Definition Object_default : Object :=
  {| name := NONE; num_onions := u8 0; num_tomatoes := u8 0;
     cooking_tick := i8 (-1) |}.

#[global] Instance Object_inhabited : Inhabited Object :=
  populate Object_default.

(** [uint8_t num_ingredients() { return num_onions + num_tomatoes; }]
    Both operands are promoted to [int]; the sum is narrowed on return. *)
Definition num_ingredients (o : Object) : uint8 :=
  u8 (word.unsigned (num_onions o) + word.unsigned (num_tomatoes o)).

(** [uint8_t get_recipe()
     { return (MAX_NUM_INGREDIENTS + 1) * num_onions + num_tomatoes; }] *)
Definition get_recipe (o : Object) : uint8 :=
  u8 ((MAX_NUM_INGREDIENTS + 1) * word.unsigned (num_onions o)
      + word.unsigned (num_tomatoes o)).

(** ** struct PlayerState *)

Record PlayerState : Type := mkPlayerState {
  position : uint8;
  orientation : uint8;
  proposed_position : uint8;
  proposed_orientation : uint8;
  held_object : Object
}.

Definition has_object (s : PlayerState) : bool :=
  negb (ObjectT_eqb (name (held_object s)) NONE).

Definition get_object (s : PlayerState) : Object := held_object s.

Definition set_object (s : PlayerState) (obj : Object) : PlayerState :=
  {| position := position s; orientation := orientation s;
     proposed_position := proposed_position s;
     proposed_orientation := proposed_orientation s;
     held_object := obj |}.

(** [remove_object] returns the held object and mutates the player: the
    result pairs the returned object with the player afterwards. *)
Definition remove_object (s : PlayerState) : Object * PlayerState :=
  let obj := held_object s in
  (obj, set_object s {| name := NONE; num_onions := u8 0;
                        num_tomatoes := u8 0; cooking_tick := i8 (-1) |}).

Definition update_pos_and_or (s : PlayerState) : PlayerState :=
  {| position := proposed_position s;
     orientation := proposed_orientation s;
     proposed_position := proposed_position s;
     proposed_orientation := proposed_orientation s;
     held_object := held_object s |}.

Definition update_or (s : PlayerState) : PlayerState :=
  {| position := position s;
     orientation := proposed_orientation s;
     proposed_position := proposed_position s;
     proposed_orientation := proposed_orientation s;
     held_object := held_object s |}.

(** [propose_pos_and_or(int32_t p, int32_t o)]: both arguments are narrowed
    to [uint8_t] by the assignments. *)
Definition propose_pos_and_or (s : PlayerState) (p o : Z) : PlayerState :=
  {| position := position s;
     orientation := orientation s;
     proposed_position := u8 p;
     proposed_orientation := u8 o;
     held_object := held_object s |}.

(** ** struct WorldState

    C arrays are lists; the array bound of each is recorded by
    [WorldState_wf], together with the fact that the grid fits the arrays.
    [timestep], [horizon] and [calculated_reward] are wide signed integers
    whose overflow is undefined in C++; they are unbounded here. *)

Record WorldState : Type := mkWorldState {
  objects : list Object;            (* Object objects[MAX_SIZE] *)
  timestep : Z;                     (* int32_t *)
  size : uint8;
  num_players : uint8;
  terrain : list TerrainT;          (* TerrainT terrain[MAX_SIZE] *)
  height : uint8;
  width : uint8;
  start_player_x : list uint8;      (* [MAX_NUM_PLAYERS] *)
  start_player_y : list uint8;      (* [MAX_NUM_PLAYERS] *)
  placement_in_pot_rew : uint8;
  dish_pickup_rew : uint8;
  soup_pickup_rew : uint8;
  recipe_values : list uint8;       (* [NUM_RECIPES] *)
  recipe_times : list uint8;        (* [NUM_RECIPES] *)
  horizon : Z;                      (* int64_t *)
  num_pots : uint8;
  pot_locs : list uint8;            (* [MAX_SIZE] *)
  num_counters : uint8;
  counter_locs : list uint8;        (* [MAX_SIZE] *)
  calculated_reward : Z             (* int64_t *)
}.

Record WorldState_wf (ws : WorldState) : Prop := {
  wf_objects : length (objects ws) = Z.to_nat MAX_SIZE;
  wf_terrain : length (terrain ws) = Z.to_nat MAX_SIZE;
  wf_recipe_values : length (recipe_values ws) = Z.to_nat NUM_RECIPES;
  wf_recipe_times : length (recipe_times ws) = Z.to_nat NUM_RECIPES;
  wf_grid : word.unsigned (height ws) * word.unsigned (width ws) <= MAX_SIZE
}.

(** Reading entry [i] of an array of bytes; [None] is a read past the end
    (undefined behaviour in C++). *)
Definition table_read (tbl : list uint8) (i : uint8) : option uint8 :=
  tbl !! Z.to_nat (word.unsigned i).

(** * The per-tick engine

    [sim.cpp] is not among the available sources.  The definitions below are
    modelled from the prose specification of the engine; the types of the
    fields they read and write are those of [sim.hpp] above, so every
    narrowing that a C++ assignment to such a field performs is written
    out. *)

(** ** Configuration and world construction *)

(** [struct Config] of [sim.hpp].  The fields are [int64_t] and vectors of
    [int64_t]; they are read as their mathematical values. *)
Module Cfg.
Record Config : Type := mkConfig {
  terrain : list Z;
  height : Z;
  width : Z;
  num_players : Z;
  start_player_x : list Z;
  start_player_y : list Z;
  placement_in_pot_rew : Z;
  dish_pickup_rew : Z;
  soup_pickup_rew : Z;
  recipe_values : list Z;
  recipe_times : list Z;
  horizon : Z
}.
End Cfg.

(** The enumerator values of [TerrainT], read backwards. *)
Definition TerrainT_of_code (z : Z) : option TerrainT :=
  match z with
  | 0 => Some AIR
  | 1 => Some POT
  | 2 => Some COUNTER
  | 3 => Some ONION_SOURCE
  | 4 => Some TOMATO_SOURCE
  | 5 => Some DISH_SOURCE
  | 6 => Some SERVING
  | _ => None
  end.

Definition TerrainT_eqb (a b : TerrainT) : bool :=
  match a, b with
  | AIR, AIR | POT, POT | COUNTER, COUNTER | ONION_SOURCE, ONION_SOURCE
  | TOMATO_SOURCE, TOMATO_SOURCE | DISH_SOURCE, DISH_SOURCE
  | SERVING, SERVING => true
  | _, _ => false
  end.

(** Modelled from the spec: section 4.1, "POT, COUNTER, and source/serving
    cells are not walkable"; the walkability test of [sim.cpp] is missing. *)
Definition walkable (t : TerrainT) : bool := TerrainT_eqb t AIR.

(** Modelled from the spec: section 3, "derived index lists of pot and
    counter cell positions"; the scan of [sim.cpp] is missing.  Cell [k] of
    the flattened grid is recorded as the byte [k]. *)
Fixpoint locs_of (t : TerrainT) (k : Z) (cells : list TerrainT) : list uint8 :=
  match cells with
  | [] => []
  | c :: cs =>
      if TerrainT_eqb c t then u8 k :: locs_of t (k + 1) cs
      else locs_of t (k + 1) cs
  end.

(** Modelled from the spec: section 7, "start positions must lie within grid
    bounds on walkable cells"; cell [(x, y)] is cell [y * width + x] of the
    flattened terrain. *)
Definition start_ok (cfg : Cfg.Config) (cells : list TerrainT) (i : nat) : bool :=
  match Cfg.start_player_x cfg !! i, Cfg.start_player_y cfg !! i with
  | Some x, Some y =>
      (0 <=? x) && (x <? Cfg.width cfg) && (0 <=? y) && (y <? Cfg.height cfg)
      && match cells !! Z.to_nat (y * Cfg.width cfg + x) with
         | Some t => walkable t
         | None => false
         end
  | _, _ => false
  end.

(** Modelled from the spec: the configuration-time validation of section 7
    and the capacity bound of section 3 ("Height x width <= grid capacity");
    the constructor of [Sim] in [sim.cpp] is missing. *)
Definition config_ok (cfg : Cfg.Config) (cells : list TerrainT) : bool :=
  (Z.of_nat (length (Cfg.terrain cfg)) =? Cfg.height cfg * Cfg.width cfg)
  && (Cfg.height cfg * Cfg.width cfg <=? MAX_SIZE)
  && (Cfg.num_players cfg <=? MAX_NUM_PLAYERS)
  && (Z.of_nat (length (Cfg.recipe_values cfg)) =? NUM_RECIPES)
  && (Z.of_nat (length (Cfg.recipe_times cfg)) =? NUM_RECIPES)
  && forallb (start_ok cfg cells) (seq 0 (Z.to_nat (Cfg.num_players cfg))).

(** Modelled from the spec: world construction (sections 3, 6 and 7); the
    constructor of [Sim] in [sim.cpp] is missing.  A configuration that
    fails validation, or whose terrain holds a number that is no terrain
    code, yields no world.  Each field of [WorldState] receives the
    configured value narrowed to the field's type in [sim.hpp]; arrays are
    filled up to their bound with zero-initialised entries.  The spec has
    no sentence on the [size] member; it is given the cell count, and no
    fact below depends on it. *)
Definition make_world (cfg : Cfg.Config) : option WorldState :=
  match mapM TerrainT_of_code (Cfg.terrain cfg) with
  | None => None
  | Some cells =>
      if config_ok cfg cells then
        Some {|
          objects := replicate (Z.to_nat MAX_SIZE) Object_default;
          timestep := 0;
          size := u8 (Cfg.height cfg * Cfg.width cfg);
          num_players := u8 (Cfg.num_players cfg);
          terrain := resize (Z.to_nat MAX_SIZE) AIR cells;
          height := u8 (Cfg.height cfg);
          width := u8 (Cfg.width cfg);
          start_player_x := u8 <$> Cfg.start_player_x cfg;
          start_player_y := u8 <$> Cfg.start_player_y cfg;
          placement_in_pot_rew := u8 (Cfg.placement_in_pot_rew cfg);
          dish_pickup_rew := u8 (Cfg.dish_pickup_rew cfg);
          soup_pickup_rew := u8 (Cfg.soup_pickup_rew cfg);
          recipe_values := u8 <$> Cfg.recipe_values cfg;
          recipe_times := u8 <$> Cfg.recipe_times cfg;
          horizon := Cfg.horizon cfg;
          num_pots := u8 (Z.of_nat (length (locs_of POT 0 cells)));
          pot_locs := resize (Z.to_nat MAX_SIZE) (u8 0) (locs_of POT 0 cells);
          num_counters := u8 (Z.of_nat (length (locs_of COUNTER 0 cells)));
          counter_locs :=
            resize (Z.to_nat MAX_SIZE) (u8 0) (locs_of COUNTER 0 cells);
          calculated_reward := 0
        |}
      else None
  end.

(** ** Reading and writing the grid *)

#[global] Instance TerrainT_inhabited : Inhabited TerrainT := populate AIR.
#[global] Instance uint8_inhabited : Inhabited uint8 := populate (u8 0).

Definition set_objects (ws : WorldState) (objs : list Object) : WorldState :=
  {| objects := objs; timestep := timestep ws; size := size ws;
     num_players := num_players ws; terrain := terrain ws;
     height := height ws; width := width ws;
     start_player_x := start_player_x ws;
     start_player_y := start_player_y ws;
     placement_in_pot_rew := placement_in_pot_rew ws;
     dish_pickup_rew := dish_pickup_rew ws;
     soup_pickup_rew := soup_pickup_rew ws;
     recipe_values := recipe_values ws; recipe_times := recipe_times ws;
     horizon := horizon ws; num_pots := num_pots ws; pot_locs := pot_locs ws;
     num_counters := num_counters ws; counter_locs := counter_locs ws;
     calculated_reward := calculated_reward ws |}.

Definition set_timestep (ws : WorldState) (t : Z) : WorldState :=
  {| objects := objects ws; timestep := t; size := size ws;
     num_players := num_players ws; terrain := terrain ws;
     height := height ws; width := width ws;
     start_player_x := start_player_x ws;
     start_player_y := start_player_y ws;
     placement_in_pot_rew := placement_in_pot_rew ws;
     dish_pickup_rew := dish_pickup_rew ws;
     soup_pickup_rew := soup_pickup_rew ws;
     recipe_values := recipe_values ws; recipe_times := recipe_times ws;
     horizon := horizon ws; num_pots := num_pots ws; pot_locs := pot_locs ws;
     num_counters := num_counters ws; counter_locs := counter_locs ws;
     calculated_reward := calculated_reward ws |}.

Definition set_calculated_reward (ws : WorldState) (r : Z) : WorldState :=
  {| objects := objects ws; timestep := timestep ws; size := size ws;
     num_players := num_players ws; terrain := terrain ws;
     height := height ws; width := width ws;
     start_player_x := start_player_x ws;
     start_player_y := start_player_y ws;
     placement_in_pot_rew := placement_in_pot_rew ws;
     dish_pickup_rew := dish_pickup_rew ws;
     soup_pickup_rew := soup_pickup_rew ws;
     recipe_values := recipe_values ws; recipe_times := recipe_times ws;
     horizon := horizon ws; num_pots := num_pots ws; pot_locs := pot_locs ws;
     num_counters := num_counters ws; counter_locs := counter_locs ws;
     calculated_reward := r |}.

(** [terrain[c]] and [objects[c]] for a cell index [c]. *)
Definition terrain_at (ws : WorldState) (c : Z) : TerrainT :=
  terrain ws !!! Z.to_nat c.
Definition object_at (ws : WorldState) (c : Z) : Object :=
  objects ws !!! Z.to_nat c.
Definition set_object_at (ws : WorldState) (c : Z) (o : Object) : WorldState :=
  set_objects ws (<[Z.to_nat c := o]> (objects ws)).
Definition add_reward (ws : WorldState) (r : Z) : WorldState :=
  set_calculated_reward ws (calculated_reward ws + r).

(** Modelled from the spec: "moving one cell in that direction" (4.2) and
    "current position + orientation offset" (4.3); the offset table of
    [sim.cpp] is missing.  A direction is the [ActionT] code of the move;
    rows of the flattened grid run from north to south and columns from west
    to east. *)
Definition dir_dx (o : Z) : Z :=
  match o with 2 => 1 | 3 => -1 | _ => 0 end.
(** Modelled from the spec: the row offset of a direction, as [dir_dx] is
    the column offset; the offset table of [sim.cpp] is missing. *)
Definition dir_dy (o : Z) : Z :=
  match o with 0 => -1 | 1 => 1 | _ => 0 end.

(** Modelled from the spec: the cell one step from [pos] in direction [o],
    or [None] outside the grid bounds (4.1, "within grid bounds"); the
    bounds test of [sim.cpp] is missing.  Positions are cell indices,
    [y * width + x]. *)
Definition neighbour (ws : WorldState) (pos : uint8) (o : Z) : option Z :=
  let w := word.unsigned (width ws) in
  let h := word.unsigned (height ws) in
  let x := word.unsigned pos mod w + dir_dx o in
  let y := word.unsigned pos / w + dir_dy o in
  if (0 <=? x) && (x <? w) && (0 <=? y) && (y <? h)
  then Some (y * w + x) else None.

(** ** Movement Resolver (spec 4.2) *)

(** Modelled from the spec: section 6, "one discrete action code (0-5)",
    and section 7, "a malformed action is treated as STAY". *)
Definition ActionT_of_code (z : Z) : ActionT :=
  match z with
  | 0 => NORTH | 1 => SOUTH | 2 => EAST | 3 => WEST | 5 => INTERACT
  | _ => STAY
  end.

(** Modelled from the spec: section 6, "one discrete action code (0-5) per
    active agent"; the action of agent [i] is entry [i] of the tick's list
    of codes, and an agent without an entry stays. *)
Definition action_of (acts : list Z) (i : nat) : ActionT :=
  match acts !! i with
  | Some z => ActionT_of_code z
  | None => STAY
  end.

(** Modelled from the spec: the "directional" actions of 4.2. *)
Definition is_move (a : ActionT) : bool :=
  match a with NORTH | SOUTH | EAST | WEST => true | _ => false end.

(** Modelled from the spec: the cell a directional action moves to, when
    "the destination is legal per current terrain (ignoring other agents at
    this phase)". *)
Definition destination (ws : WorldState) (p : PlayerState) (a : ActionT)
  : option Z :=
  if is_move a then
    match neighbour ws (position p) (ActionT_code a) with
    | Some c => if walkable (terrain_at ws c) then Some c else None
    | None => None
    end
  else None.

(** Modelled from the spec: the propose phase of 4.2.  A directional action
    with a legal destination proposes that cell and that direction;
    otherwise it proposes the current cell and that direction; STAY and
    INTERACT propose no change.  The proposal is stored with
    [propose_pos_and_or] of [sim.hpp]. *)
Definition propose (ws : WorldState) (a : ActionT) (p : PlayerState)
  : PlayerState :=
  if is_move a then
    match destination ws p a with
    | Some c => propose_pos_and_or p c (ActionT_code a)
    | None =>
        propose_pos_and_or p (word.unsigned (position p)) (ActionT_code a)
    end
  else
    propose_pos_and_or p (word.unsigned (position p))
                         (word.unsigned (orientation p)).

(** Modelled from the spec: "for each agent, given its chosen action,
    compute a proposed position/orientation"; agent ids are list
    positions. *)
Definition propose_all (ws : WorldState) (acts : list Z)
    (ps : list PlayerState) : list PlayerState :=
  imap (fun i p => propose ws (action_of acts i) p) ps.

(** Modelled from the spec: the conflicts of 4.2.  Two agents conflict when
    their proposals name the same cell; an agent that stays proposes its
    own cell, which covers "a cell another agent currently occupies and is
    not vacating". *)
Definition same_target (q p : PlayerState) : bool :=
  word.eqb (proposed_position q) (proposed_position p).
(** Modelled from the spec: "if two agents propose to swap cells, both are
    treated as conflicting". *)
Definition swaps (q p : PlayerState) : bool :=
  word.eqb (proposed_position q) (position p)
  && word.eqb (proposed_position p) (position q).

(** Modelled from the spec: agent [i] with state [p] loses when an agent of
    lower id proposes the same cell ("the highest-priority agent among
    conflicting proposals commits its move", priority by ascending agent
    id) or when another agent proposes to swap with it ("neither moves").
    [qs] is the list of agents from id [k] on. *)
Fixpoint loses_conflict (k : nat) (qs : list PlayerState) (i : nat)
    (p : PlayerState) : bool :=
  match qs with
  | [] => false
  | q :: qs' =>
      (negb (Nat.eqb k i) && ((Nat.ltb k i && same_target q p) || swaps q p))
      || loses_conflict (S k) qs' i p
  end.

(** Modelled from the spec: the commit phase of 4.2.  The winner commits
    position and orientation ([update_pos_and_or] of [sim.hpp]); the others
    "keep their previous committed position but still commit their proposed
    orientation" ([update_or]). *)
Definition commit_player (ps : list PlayerState) (i : nat) (p : PlayerState)
  : PlayerState :=
  if loses_conflict 0 ps i p then update_or p else update_pos_and_or p.

(** Modelled from the spec: the commit phase over all agents, each judged
    against the proposals of all ("after all agents have proposed"). *)
Definition commit (ps : list PlayerState) : list PlayerState :=
  imap (commit_player ps) ps.

(** Modelled from the spec: the Movement Resolver, propose then commit. *)
Definition movement (ws : WorldState) (acts : list Z) (ps : list PlayerState)
  : list PlayerState :=
  commit (propose_all ws acts ps).

(** ** Interaction Resolver (spec 4.3) and pot state machine (spec 4.4) *)

(** Modelled from the spec: "a raw ingredient (onion/tomato)". *)
Definition is_raw (n : ObjectT) : bool :=
  ObjectT_eqb n ONION || ObjectT_eqb n TOMATO.

(** Modelled from the spec: the cooking-progress counter holds a "sentinel
    value meaning not cooking"; the sentinel is the -1 that [sim.hpp] gives
    [cooking_tick] by default. *)
Definition not_cooking (o : Object) : bool :=
  word.signed (cooking_tick o) =? -1.

(** Modelled from the spec: "pick up one unit of the corresponding
    ingredient or a clean dish into hands".  The item is an [Object] of that
    kind; the other members keep their default initialisers. *)
Definition fresh_object (n : ObjectT) : Object :=
  {| name := n; num_onions := u8 0; num_tomatoes := u8 0;
     cooking_tick := i8 (-1) |}.

(** Modelled from the spec: "add the ingredient to the pot".  The matching
    8-bit count is incremented; the pot's content is a soup in the making. *)
Definition add_ingredient (pot : Object) (n : ObjectT) : Object :=
  {| name := SOUP;
     num_onions :=
       if ObjectT_eqb n ONION then u8 (word.unsigned (num_onions pot) + 1)
       else num_onions pot;
     num_tomatoes :=
       if ObjectT_eqb n TOMATO then u8 (word.unsigned (num_tomatoes pot) + 1)
       else num_tomatoes pot;
     cooking_tick := cooking_tick pot |}.

(** Modelled from the spec: "the recipe's cook time from the recipe table
    looked up by composition", that is [recipe_times[pot.get_recipe()]].  A
    read past the end of the table is undefined in C++ and not reached
    while the ingredient counts respect the cap; it yields 0 here. *)
Definition cook_time (ws : WorldState) (pot : Object) : uint8 :=
  default (u8 0) (table_read (recipe_times ws) (get_recipe pot)).

(** Modelled from the spec: "the serving reward from the recipe table
    using the soup's stored composition", that is
    [recipe_values[soup.get_recipe()]], read like [cook_time]. *)
Definition serving_value (ws : WorldState) (soup : Object) : uint8 :=
  default (u8 0) (table_read (recipe_values ws) (get_recipe soup)).

(** Modelled from the spec: "start cooking: set cooking-progress to the
    recipe's cook time".  The [uint8_t] table entry is stored in the
    [int8_t] member [cooking_tick]: the same eight bits, read as signed. *)
Definition start_cooking (ws : WorldState) (pot : Object) : Object :=
  {| name := name pot; num_onions := num_onions pot;
     num_tomatoes := num_tomatoes pot;
     cooking_tick := cook_time ws pot |}.

(** Modelled from the spec: 4.4, "Progress decrements by one per tick while
    COOKING", COOKING being a positive counter and READY a zero one. *)
Definition tick_pot (o : Object) : Object :=
  if 0 <? word.signed (cooking_tick o) then
    {| name := name o; num_onions := num_onions o;
       num_tomatoes := num_tomatoes o;
       cooking_tick := i8 (word.signed (cooking_tick o) - 1) |}
  else o.

(** Modelled from the spec: 4.4, "advances cooking progress for every pot
    each tick"; [locs] are the pot cells still to visit. *)
Fixpoint cook_pots (locs : list uint8) (objs : list Object) : list Object :=
  match locs with
  | [] => objs
  | c :: cs =>
      let k := Z.to_nat (word.unsigned c) in
      cook_pots cs (<[k := tick_pot (objs !!! k)]> objs)
  end.

(** Modelled from the spec: the cook-advance stage, over the first
    [num_pots] entries of [pot_locs]. *)
Definition cook_advance (ws : WorldState) : WorldState :=
  set_objects ws
    (cook_pots (take (Z.to_nat (word.unsigned (num_pots ws))) (pot_locs ws))
               (objects ws)).

(** ** Episode Controller (spec 4.7) *)

(** Modelled from the spec: the state of one world, its [WorldState] and
    the [PlayerState] component of each of its agents (spec 3). *)
Record SimState : Type := mkSimState {
  world : WorldState;
  players : list PlayerState     (* the PlayerState of agent [id], by id *)
}.

(** Modelled from the spec: the start cell of agent [i], from its
    configured start coordinates. *)
Definition start_position (ws : WorldState) (i : nat) : Z :=
  word.unsigned (start_player_y ws !!! i) * word.unsigned (width ws)
  + word.unsigned (start_player_x ws !!! i).

(** Modelled from the spec: "agents placed at configured start
    positions/orientations" with empty hands.  The configuration holds no
    orientation; agents start facing NORTH (code 0). *)
Definition start_player (ws : WorldState) (i : nat) : PlayerState :=
  {| position := u8 (start_position ws i);
     orientation := u8 0;
     proposed_position := u8 (start_position ws i);
     proposed_orientation := u8 0;
     held_object := Object_default |}.

(** Modelled from the spec: "grid objects cleared, ... pots emptied,
    timestep zeroed, reward accumulator zeroed". *)
Definition reset_world (ws : WorldState) : WorldState :=
  set_calculated_reward
    (set_timestep
       (set_objects ws (replicate (Z.to_nat MAX_SIZE) Object_default)) 0) 0.

(** Modelled from the spec: the state after a reset (4.7), one agent per
    id below [num_players]. *)
Definition reset_state (ws : WorldState) : SimState :=
  {| world := reset_world ws;
     players :=
       start_player ws <$> seq 0 (Z.to_nat (word.unsigned (num_players ws))) |}.

Section Engine.

(** The spec starts cooking when a placement "completes a valid recipe
    composition" and does not say which compositions are valid; the test is
    a parameter of the engine. *)
Variable valid_recipe : WorldState -> Object -> bool.

(** Modelled from the spec: the INTERACT action of one agent (4.3), against
    the cell it faces.  The result is the world and the agent afterwards. *)
Definition interact (ws : WorldState) (p : PlayerState)
  : WorldState * PlayerState :=
  match neighbour ws (position p) (word.unsigned (orientation p)) with
  | None => (ws, p)
  | Some c =>
      let here := object_at ws c in
      let held := get_object p in
      match terrain_at ws c with
      | AIR => (ws, p)
      | ONION_SOURCE =>
          if has_object p then (ws, p)
          else (ws, set_object p (fresh_object ONION))
      | TOMATO_SOURCE =>
          if has_object p then (ws, p)
          else (ws, set_object p (fresh_object TOMATO))
      | DISH_SOURCE =>
          if has_object p then (ws, p)
          else (ws, set_object p (fresh_object DISH))
      | POT =>
          if is_raw (name held)
             && word.ltu (num_ingredients here) (u8 MAX_NUM_INGREDIENTS)
             && not_cooking here
          then
            let pot := add_ingredient here (name held) in
            let pot' :=
              if valid_recipe ws pot then start_cooking ws pot else pot in
            (add_reward (set_object_at ws c pot')
                        (word.unsigned (placement_in_pot_rew ws)),
             snd (remove_object p))
          else if ObjectT_eqb (name held) DISH
                  && (word.signed (cooking_tick here) =? 0)
                  && ObjectT_eqb (name here) SOUP
          then
            (add_reward (set_object_at ws c Object_default)
                        (word.unsigned (dish_pickup_rew ws)),
             set_object p here)
          else (ws, p)
      | COUNTER =>
          if negb (has_object p) && negb (ObjectT_eqb (name here) NONE)
          then (set_object_at ws c Object_default, set_object p here)
          else if has_object p && ObjectT_eqb (name here) NONE
          then (set_object_at ws c (fst (remove_object p)),
                snd (remove_object p))
          else (ws, p)
      | SERVING =>
          if ObjectT_eqb (name held) SOUP
          then
            (add_reward ws (word.unsigned (serving_value ws held)
                            + word.unsigned (soup_pickup_rew ws)),
             snd (remove_object p))
          else (ws, p)
      end
  end.

(** Modelled from the spec: the interaction stage, agents in ascending id
    order, each seeing the world as the agents before it left it.  [ps] is
    the list of agents from id [k] on. *)
Fixpoint interact_all (ws : WorldState) (k : nat) (ps : list PlayerState)
    (acts : list Z) : WorldState * list PlayerState :=
  match ps with
  | [] => (ws, [])
  | p :: ps' =>
      let r :=
        match action_of acts k with
        | INTERACT => interact ws p
        | _ => (ws, p)
        end in
      let rs := interact_all (fst r) (S k) ps' acts in
      (fst rs, snd r :: snd rs)
  end.

(** Modelled from the spec: one tick (section 2, data flow per tick) given
    the agents' action codes and the external reset signal: movement,
    interaction, cook advance, then the episode check of 4.7 ("timestep
    reaches the configured horizon, or an explicit reset signal is set").
    The mask and observation stages do not change the state. *)
Definition step (st : SimState) (acts : list Z) (resetNow : bool) : SimState :=
  let ws0 := set_calculated_reward (world st) 0 in
  let ps1 := movement ws0 acts (players st) in
  let r := interact_all ws0 0 ps1 acts in
  let ws2 := cook_advance (fst r) in
  let ws3 := set_timestep ws2 (timestep ws2 + 1) in
  if resetNow || (horizon ws3 <=? timestep ws3)
  then reset_state ws3
  else {| world := ws3; players := snd r |}.

(** Modelled from the spec: the states a world built from [cfg] can be
    in, the initial state and what ticks make of it. *)
Inductive reachable (cfg : Cfg.Config) : SimState -> Prop :=
| reachable_init (ws : WorldState) :
    make_world cfg = Some ws -> reachable cfg (reset_state ws)
| reachable_step (st : SimState) (acts : list Z) (resetNow : bool) :
    reachable cfg st -> reachable cfg (step st acts resetNow).

(** Modelled from the spec: a run of ticks without external reset. *)
Fixpoint run (st : SimState) (ticks : list (list Z)) : SimState :=
  match ticks with
  | [] => st
  | acts :: rest => run (step st acts false) rest
  end.

End Engine.

(** The ingredient cap as an invariant of objects. *)
Definition within_cap (o : Object) : Prop :=
  word.unsigned (num_onions o) + word.unsigned (num_tomatoes o)
  <= MAX_NUM_INGREDIENTS.

(** Every object of a state: one per cell (pots are cells) and one per
    agent's hands. *)
Definition all_within_cap (st : SimState) : Prop :=
  Forall within_cap (objects (world st))
  /\ Forall (fun p => within_cap (held_object p)) (players st).

(** The cell a directional action proposes, as the byte stored in
    [proposed_position]. *)
Definition target_cell (ws : WorldState) (p : PlayerState) (a : ActionT)
  : option uint8 :=
  u8 <$> destination ws p a.

(** What a tick leaves alone in a world: the grid, the recipe tables and
    the number of cells of the object array (spec 3, "Grid and recipe
    tables are created at world construction ... and never mutated
    mid-episode"). *)
Definition same_layout (a b : WorldState) : Prop :=
  length (objects b) = length (objects a)
  /\ terrain b = terrain a
  /\ height b = height a
  /\ width b = width a
  /\ recipe_values b = recipe_values a
  /\ recipe_times b = recipe_times a.

(** * Concrete inputs *)

Definition two_onions_one_tomato : Object :=
  {| name := SOUP; num_onions := u8 2; num_tomatoes := u8 1;
     cooking_tick := i8 (-1) |}.

Definition three_onions_three_tomatoes : Object :=
  {| name := SOUP; num_onions := u8 3; num_tomatoes := u8 3;
     cooking_tick := i8 (-1) |}.

(** A 5 x 3 kitchen: a pot north of agent 0's start, an onion source to its
    west, a serving window east of agent 1's start.
<<
      COUNTER  POT   COUNTER  COUNTER  COUNTER
      ONION    AIR   AIR      AIR      SERVING
      COUNTER  DISH  TOMATO   COUNTER  COUNTER
>>
    Agent 0 starts on cell 6, agent 1 on cell 8; cell 7 lies between them. *)
Definition kitchen_config (cook : Z) : Cfg.Config :=
  {| Cfg.terrain := [2; 1; 2; 2; 2;
                     3; 0; 0; 0; 6;
                     2; 5; 4; 2; 2];
     Cfg.height := 3;
     Cfg.width := 5;
     Cfg.num_players := 2;
     Cfg.start_player_x := [1; 3];
     Cfg.start_player_y := [1; 1];
     Cfg.placement_in_pot_rew := 3;
     Cfg.dish_pickup_rew := 3;
     Cfg.soup_pickup_rew := 5;
     Cfg.recipe_values := replicate 16 20;
     Cfg.recipe_times := replicate 16 cook;
     Cfg.horizon := 400 |}.

(** A validity test for the examples: a pot filled to the cap is a recipe. *)
Definition full_pot (ws : WorldState) (o : Object) : bool :=
  word.unsigned (num_ingredients o) =? MAX_NUM_INGREDIENTS.

(** A world with no cell and no agent. *)
Definition no_world : WorldState :=
  mkWorldState [] 0 (u8 0) (u8 0) [] (u8 0) (u8 0) [] [] (u8 0) (u8 0) (u8 0)
               [] [] 0 (u8 0) [] (u8 0) [] 0.

(** The world built from the kitchen configuration ([no_world] should the
    configuration be refused, which it is not), and its initial state. *)
Definition kitchen_world (cook : Z) : WorldState :=
  default no_world (make_world (kitchen_config cook)).
Definition kitchen (cook : Z) : SimState := reset_state (kitchen_world cook).

(** Agent 0 fetches an onion and puts it in the pot, three times over:
    turn west to the source, interact, turn north to the pot, interact. *)
Definition fetch_and_place : list (list Z) :=
  [[3; 4]; [5; 4]; [0; 4]; [5; 4]].
Definition three_onions : list (list Z) :=
  fetch_and_place ++ fetch_and_place ++ fetch_and_place.

(** The kitchen with cook time [cook], two onions in the pot (cell 1) and
    agent 0 facing the pot with a third onion in hand. *)
Definition third_onion_state (cook : Z) : SimState :=
  run full_pot (kitchen cook)
      (fetch_and_place ++ fetch_and_place ++ [[3; 4]; [5; 4]; [0; 4]]).
Definition third_onion_agent (cook : Z) : PlayerState :=
  default (start_player (world (third_onion_state cook)) 0)
          (players (third_onion_state cook) !! 0%nat).
(** The world after agent 0 interacts in that state. *)
Definition third_onion_placed (cook : Z) : WorldState :=
  fst (interact full_pot (world (third_onion_state cook))
                (third_onion_agent cook)).

(** The object with one onion more and [MAX_NUM_INGREDIENTS + 1] tomatoes
    fewer than [o]; the counts are narrowed to their 8-bit members. *)
Definition recipe_alias (o : Object) : Object :=
  {| name := name o;
     num_onions := u8 (word.unsigned (num_onions o) + 1);
     num_tomatoes :=
       u8 (word.unsigned (num_tomatoes o) - (MAX_NUM_INGREDIENTS + 1));
     cooking_tick := cooking_tick o |}.

(** The recipe indices of the compositions with at most
    [MAX_NUM_INGREDIENTS] ingredients in all. *)
Definition capped_recipes : list Z := [0; 1; 2; 3; 4; 5; 6; 8; 9; 12].

Definition four_tomatoes : Object :=
  {| name := SOUP; num_onions := u8 0; num_tomatoes := u8 4;
     cooking_tick := i8 (-1) |}.

Definition five_onions : Object :=
  {| name := SOUP; num_onions := u8 5; num_tomatoes := u8 0;
     cooking_tick := i8 (-1) |}.

Definition dish_two_onions_one_tomato : Object :=
  {| name := DISH; num_onions := u8 2; num_tomatoes := u8 1;
     cooking_tick := i8 0 |}.

(** A table of [NUM_RECIPES] entries. *)
Definition flat_table : list uint8 := replicate 16 (u8 20).

(** An agent on the last cell a position can name. *)
Definition corner_player : PlayerState :=
  {| position := u8 255; orientation := u8 1;
     proposed_position := u8 254; proposed_orientation := u8 3;
     held_object := two_onions_one_tomato |}.

(** ** Facts about the members of [Object] *)

Lemma ObjectT_eqb_spec a b : reflect (a = b) (ObjectT_eqb a b).
Proof. destruct a, b; constructor; congruence. Qed.

Lemma u8_unsigned (z : Z) : word.unsigned (u8 z) = z mod 2 ^ 8.
Proof. unfold u8. rewrite word.unsigned_of_Z. reflexivity. Qed.

Lemma u8_unsigned_small (z : Z) : 0 <= z < 256 -> word.unsigned (u8 z) = z.
Proof. intros H. rewrite u8_unsigned. apply Z.mod_small. lia. Qed.

Lemma uint8_range (w : uint8) : 0 <= word.unsigned w < 256.
Proof. pose proof (word.unsigned_range w). lia. Qed.

(** The cooking-progress counter is an [int8_t]: it lies in -128..127. *)
Lemma cooking_tick_range (o : Object) :
  -128 <= word.signed (cooking_tick o) <= 127.
Proof. pose proof (word.signed_range (cooking_tick o)). lia. Qed.

Lemma num_ingredients_small (o : Object) :
  word.unsigned (num_onions o) + word.unsigned (num_tomatoes o) < 256 ->
  word.unsigned (num_ingredients o)
  = word.unsigned (num_onions o) + word.unsigned (num_tomatoes o).
Proof.
  intros H. unfold num_ingredients. apply u8_unsigned_small.
  pose proof (uint8_range (num_onions o)).
  pose proof (uint8_range (num_tomatoes o)). lia.
Qed.

(** C1: for every Object of the game, that is every Object within the
    ingredient cap of the data model ([num_onions + num_tomatoes <=
    MAX_NUM_INGREDIENTS]), the recipe index [get_recipe] returns is
    [(MAX_NUM_INGREDIENTS+1) * onions + tomatoes]; with
    [MAX_NUM_INGREDIENTS = 3], an object with 2 onions and 1 tomato has
    recipe index 9, whatever its name and cooking progress. *)
Theorem get_recipe_recipe_index (o : Object) :
  within_cap o ->
  word.unsigned (get_recipe o)
  = (MAX_NUM_INGREDIENTS + 1) * word.unsigned (num_onions o)
    + word.unsigned (num_tomatoes o)
  /\ MAX_NUM_INGREDIENTS = 3
  /\ (forall (n : ObjectT) (tick : int8),
        word.unsigned (get_recipe (mkObject n (u8 2) (u8 1) tick)) = 9).
Proof.
  unfold within_cap. intros Hcap.
  pose proof (uint8_range (num_onions o)) as Ho.
  pose proof (uint8_range (num_tomatoes o)) as Ht.
  split; [|split; [reflexivity | intros n tick; reflexivity]].
  unfold get_recipe, MAX_NUM_INGREDIENTS in *.
  apply u8_unsigned_small. lia.
Qed.

Lemma get_recipe_recipe_index_witness :
  word.unsigned (get_recipe two_onions_one_tomato)
  = (MAX_NUM_INGREDIENTS + 1) * word.unsigned (num_onions two_onions_one_tomato)
    + word.unsigned (num_tomatoes two_onions_one_tomato)
  /\ MAX_NUM_INGREDIENTS = 3
  /\ (forall (n : ObjectT) (tick : int8),
        word.unsigned (get_recipe (mkObject n (u8 2) (u8 1) tick)) = 9).
Proof.
  apply (get_recipe_recipe_index two_onions_one_tomato).
  vm_compute. discriminate.
Defined.

Lemma get_recipe_in_bounds_aux (o : Object) (tbl : list uint8) :
  word.unsigned (num_onions o) <= MAX_NUM_INGREDIENTS ->
  word.unsigned (num_tomatoes o) <= MAX_NUM_INGREDIENTS ->
  length tbl = Z.to_nat NUM_RECIPES ->
  exists v, table_read tbl (get_recipe o) = Some v.
Proof.
  intros Ho Ht Hlen.
  pose proof (uint8_range (num_onions o)) as Ro.
  pose proof (uint8_range (num_tomatoes o)) as Rt.
  unfold table_read.
  destruct (lookup_lt_is_Some_2 tbl (Z.to_nat (word.unsigned (get_recipe o))))
    as [v Hv]; [|exists v; exact Hv].
  rewrite Hlen.
  unfold get_recipe, NUM_RECIPES, MAX_NUM_INGREDIENTS in *.
  rewrite u8_unsigned_small; lia.
Qed.

(** C8: when both ingredient counts are at most [MAX_NUM_INGREDIENTS],
    [get_recipe] is below [NUM_RECIPES], so reading a table of
    [NUM_RECIPES] entries at that index stays inside the table. *)
Theorem get_recipe_in_bounds (o : Object) :
  word.unsigned (num_onions o) <= MAX_NUM_INGREDIENTS ->
  word.unsigned (num_tomatoes o) <= MAX_NUM_INGREDIENTS ->
  word.unsigned (get_recipe o) < NUM_RECIPES
  /\ forall tbl : list uint8,
       length tbl = Z.to_nat NUM_RECIPES ->
       exists v, table_read tbl (get_recipe o) = Some v.
Proof.
  intros Ho Ht.
  pose proof (uint8_range (num_onions o)) as Ro.
  pose proof (uint8_range (num_tomatoes o)) as Rt.
  assert (Hlt : word.unsigned (get_recipe o) < NUM_RECIPES).
  { unfold get_recipe, NUM_RECIPES, MAX_NUM_INGREDIENTS in *.
    rewrite u8_unsigned_small; lia. }
  split; [exact Hlt|].
  intros tbl Hlen. apply get_recipe_in_bounds_aux; assumption.
Qed.

Lemma get_recipe_in_bounds_witness :
  word.unsigned (get_recipe three_onions_three_tomatoes) < NUM_RECIPES.
Proof.
  apply (get_recipe_in_bounds three_onions_three_tomatoes);
    vm_compute; discriminate.
Defined.

(** ** Facts about the members of [PlayerState] *)

(** C7: [has_object] is true exactly when the held object's name is not
    [NONE]; after [remove_object] the held object is [NONE] with zero onion
    and tomato counts and cooking progress -1, and [has_object] is false. *)
Theorem has_object_remove_object (s : PlayerState) :
  (has_object s = true <-> name (held_object s) <> NONE)
  /\ name (held_object (snd (remove_object s))) = NONE
  /\ word.unsigned (num_onions (held_object (snd (remove_object s)))) = 0
  /\ word.unsigned (num_tomatoes (held_object (snd (remove_object s)))) = 0
  /\ word.signed (cooking_tick (held_object (snd (remove_object s)))) = -1
  /\ held_object (snd (remove_object s)) = Object_default
  /\ has_object (snd (remove_object s)) = false.
Proof.
  split.
  - unfold has_object.
    destruct (ObjectT_eqb_spec (name (held_object s)) NONE) as [E | E];
      simpl; split; intros H; congruence.
  - repeat split; reflexivity.
Qed.

(** C9: [set_object obj] followed by [remove_object] returns [obj] itself
    and leaves the player with empty hands; position, orientation and the
    proposal fields are those of the player before. *)
Theorem set_remove_roundtrip (s : PlayerState) (obj : Object) :
  fst (remove_object (set_object s obj)) = obj
  /\ held_object (snd (remove_object (set_object s obj))) = Object_default
  /\ has_object (snd (remove_object (set_object s obj))) = false
  /\ snd (remove_object (set_object s obj)) = set_object s Object_default.
Proof. repeat split; reflexivity. Qed.

(** C10: [update_or] copies [proposed_orientation] into [orientation] and
    changes nothing else; [update_pos_and_or] copies both proposal fields
    into [position] and [orientation] and changes nothing else. *)
Theorem update_frame (s : PlayerState) :
  (orientation (update_or s) = proposed_orientation s
   /\ position (update_or s) = position s
   /\ proposed_position (update_or s) = proposed_position s
   /\ proposed_orientation (update_or s) = proposed_orientation s
   /\ held_object (update_or s) = held_object s)
  /\ (position (update_pos_and_or s) = proposed_position s
      /\ orientation (update_pos_and_or s) = proposed_orientation s
      /\ proposed_position (update_pos_and_or s) = proposed_position s
      /\ proposed_orientation (update_pos_and_or s) = proposed_orientation s
      /\ held_object (update_pos_and_or s) = held_object s).
Proof. repeat split; reflexivity. Qed.

(** * Facts about the per-tick engine *)

Lemma config_ok_dimensions (cfg : Cfg.Config) (cells : list TerrainT) :
  config_ok cfg cells = true ->
  Z.of_nat (length (Cfg.terrain cfg)) = Cfg.height cfg * Cfg.width cfg
  /\ Cfg.height cfg * Cfg.width cfg <= MAX_SIZE.
Proof.
  unfold config_ok. intros H.
  repeat (apply andb_prop in H; destruct H as [H ?]).
  split; [apply Z.eqb_eq | apply Z.leb_le]; assumption.
Qed.

Lemma make_world_kitchen (cook : Z) :
  make_world (kitchen_config cook) = Some (kitchen_world cook).
Proof. reflexivity. Qed.

(** ** Movement *)

Lemma u8_of_unsigned (w : uint8) : u8 (word.unsigned w) = w.
Proof. unfold u8. apply word.of_Z_unsigned. Qed.

Lemma ActionT_code_byte (a : ActionT) :
  word.unsigned (u8 (ActionT_code a)) = ActionT_code a.
Proof. destruct a; reflexivity. Qed.

Lemma propose_position ws a p : position (propose ws a p) = position p.
Proof.
  unfold propose. destruct (is_move a); [|reflexivity].
  destruct (destination ws p a); reflexivity.
Qed.

Lemma propose_held_object ws a p :
  held_object (propose ws a p) = held_object p.
Proof.
  unfold propose. destruct (is_move a); [|reflexivity].
  destruct (destination ws p a); reflexivity.
Qed.

Lemma propose_target ws a p c :
  target_cell ws p a = Some c ->
  proposed_position (propose ws a p) = c
  /\ proposed_orientation (propose ws a p) = u8 (ActionT_code a).
Proof.
  unfold target_cell, propose, destination.
  destruct (is_move a); [|discriminate].
  destruct (neighbour ws (position p) (ActionT_code a)) as [d|];
    [|discriminate].
  destruct (walkable (terrain_at ws d)); [|discriminate].
  simpl. intros [= <-]. split; reflexivity.
Qed.

(** A proposal names either the agent's own cell or its target. *)
Lemma propose_proposed_position ws a p :
  proposed_position (propose ws a p) = position p
  \/ target_cell ws p a = Some (proposed_position (propose ws a p)).
Proof.
  unfold propose, target_cell.
  destruct (is_move a).
  - destruct (destination ws p a) as [d|].
    + right. reflexivity.
    + left. apply u8_of_unsigned.
  - left. apply u8_of_unsigned.
Qed.

Lemma loses_conflict_true k qs i p :
  loses_conflict k qs i p = true <->
  exists n q,
    qs !! n = Some q /\ (k + n)%nat <> i
    /\ (((k + n < i)%nat /\ same_target q p = true) \/ swaps q p = true).
Proof.
  revert k. induction qs as [|q qs IH]; intros k; simpl.
  - split; [discriminate|]. intros (n & q & Hn & _). discriminate.
  - rewrite orb_true_iff, IH. split.
    + intros [H | (n & q' & Hn & Hne & Hc)].
      * apply andb_prop in H as [Hne Hc]. exists 0%nat, q.
        rewrite Nat.add_0_r. split; [reflexivity|].
        apply negb_true_iff, Nat.eqb_neq in Hne. split; [exact Hne|].
        apply orb_prop in Hc as [Hc | Hc]; [left | right; exact Hc].
        apply andb_prop in Hc as [Hlt Hs]. apply Nat.ltb_lt in Hlt. auto.
      * exists (S n), q'. rewrite Nat.add_succ_r. auto.
    + intros (n & q' & Hn & Hne & Hc). destruct n as [|n].
      * left. simpl in Hn. injection Hn as ->. rewrite Nat.add_0_r in *.
        apply andb_true_intro. split.
        { apply negb_true_iff, Nat.eqb_neq. exact Hne. }
        destruct Hc as [[Hlt Hs] | Hs].
        { rewrite Hs, (proj2 (Nat.ltb_lt _ _) Hlt). reflexivity. }
        { rewrite Hs. apply orb_true_r. }
      * right. exists n, q'. rewrite Nat.add_succ_r in *. auto.
Qed.

Lemma movement_lookup ws acts ps k :
  movement ws acts ps !! k
  = (fun p => commit_player (propose_all ws acts ps) k
                (propose ws (action_of acts k) p)) <$> ps !! k.
Proof.
  unfold movement, commit. rewrite list_lookup_imap.
  unfold propose_all at 2. rewrite list_lookup_imap.
  destruct (ps !! k); reflexivity.
Qed.

Lemma commit_player_position ps k q :
  position (commit_player ps k q)
  = if loses_conflict 0 ps k q then position q else proposed_position q.
Proof. unfold commit_player. destruct (loses_conflict 0 ps k q); reflexivity. Qed.

Lemma commit_player_orientation ps k q :
  orientation (commit_player ps k q) = proposed_orientation q.
Proof. unfold commit_player. destruct (loses_conflict 0 ps k q); reflexivity. Qed.

Lemma commit_player_held_object ps k q :
  held_object (commit_player ps k q) = held_object q.
Proof. unfold commit_player. destruct (loses_conflict 0 ps k q); reflexivity. Qed.

(** C4: when agents [i < j] both choose a directional action whose target
    is the same cell [c], no agent stands on [c], and [i] is the lowest id
    among the agents targeting [c] (as it is when these two are the agents
    targeting [c]), then after the movement commit agent [i] stands on [c]
    and is the only agent there, while agent [j] keeps the position it had
    and faces the direction it tried to move in. *)
Theorem same_target_lower_id_moves
    (ws : WorldState) (acts : list Z) (ps : list PlayerState)
    (i j : nat) (pi pj : PlayerState) (c : uint8) :
  (i < j)%nat ->
  ps !! i = Some pi ->
  ps !! j = Some pj ->
  target_cell ws pi (action_of acts i) = Some c ->
  target_cell ws pj (action_of acts j) = Some c ->
  (forall k pk, ps !! k = Some pk -> position pk <> c) ->
  (forall k pk, ps !! k = Some pk -> (k < i)%nat ->
                target_cell ws pk (action_of acts k) <> Some c) ->
  exists pi' pj',
    movement ws acts ps !! i = Some pi'
    /\ movement ws acts ps !! j = Some pj'
    /\ position pi' = c
    /\ position pj' = position pj
    /\ position pj' <> c
    /\ is_move (action_of acts j) = true
    /\ word.unsigned (orientation pj') = ActionT_code (action_of acts j)
    /\ (forall k pk', movement ws acts ps !! k = Some pk' ->
                      position pk' = c -> k = i).
Proof.
  intros Hij Hi Hj Hti Htj Hempty Hlowest.
  set (qs := propose_all ws acts ps).
  assert (Hqs : forall k, qs !! k
                = propose ws (action_of acts k) <$> ps !! k).
  { intros k. unfold qs, propose_all. rewrite list_lookup_imap.
    destruct (ps !! k); reflexivity. }
  destruct (propose_target _ _ _ _ Hti) as [Hppi Hpoi].
  destruct (propose_target _ _ _ _ Htj) as [Hppj Hpoj].
  set (qi := propose ws (action_of acts i) pi) in *.
  set (qj := propose ws (action_of acts j) pj) in *.
  (* an agent whose proposal is [c] targets [c] *)
  assert (Hwho : forall k pk, ps !! k = Some pk ->
            proposed_position (propose ws (action_of acts k) pk) = c ->
            target_cell ws pk (action_of acts k) = Some c).
  { intros k pk Hk Hc.
    destruct (propose_proposed_position ws (action_of acts k) pk) as [E | E].
    - exfalso. apply (Hempty k pk Hk). congruence.
    - rewrite Hc in E. exact E. }
  (* an agent of higher id than [i] whose proposal is [c] loses to [i] *)
  assert (Hafter : forall k pk, ps !! k = Some pk -> (i < k)%nat ->
            proposed_position (propose ws (action_of acts k) pk) = c ->
            loses_conflict 0 qs k (propose ws (action_of acts k) pk) = true).
  { intros k pk Hk Hik Hc.
    apply loses_conflict_true. exists i, qi. simpl.
    rewrite Hqs, Hi. split; [reflexivity|]. split; [lia|].
    left. split; [exact Hik|].
    unfold same_target. apply word.eqb_eq. congruence. }
  (* agent [i] wins *)
  assert (Hwin : loses_conflict 0 qs i qi = false).
  { apply not_true_is_false. intros Hl.
    apply loses_conflict_true in Hl as (n & q & Hn & Hne & Hc).
    simpl in Hne, Hc. rewrite Hqs in Hn.
    destruct (ps !! n) as [pn|] eqn:Hpn; [|discriminate].
    injection Hn as <-.
    destruct Hc as [[Hlt Hs] | Hs].
    - unfold same_target in Hs. apply word.eqb_true in Hs.
      rewrite Hppi in Hs.
      exact (Hlowest n pn Hpn Hlt (Hwho n pn Hpn Hs)).
    - unfold swaps in Hs. apply andb_prop in Hs as [_ Hs].
      apply word.eqb_true in Hs. rewrite Hppi, propose_position in Hs.
      apply (Hempty n pn Hpn). congruence. }
  pose proof (Hafter j pj Hj Hij Hppj) as Hlose. fold qj in Hlose.
  exists (commit_player qs i qi), (commit_player qs j qj).
  split; [rewrite movement_lookup, Hi; reflexivity|].
  split; [rewrite movement_lookup, Hj; reflexivity|].
  split; [rewrite commit_player_position, Hwin; exact Hppi|].
  split; [rewrite commit_player_position, Hlose; apply propose_position|].
  split.
  { rewrite commit_player_position, Hlose. unfold qj.
    rewrite propose_position. exact (Hempty j pj Hj). }
  split.
  { unfold target_cell, destination in Htj.
    destruct (is_move (action_of acts j)); [reflexivity|discriminate]. }
  split; [rewrite commit_player_orientation, Hpoj; apply ActionT_code_byte|].
  intros k pk' Hk Hc. rewrite movement_lookup in Hk.
  destruct (ps !! k) as [pk|] eqn:Hpk; [|discriminate].
  injection Hk as <-. fold qs in Hc.
  rewrite commit_player_position in Hc.
  destruct (loses_conflict 0 qs k (propose ws (action_of acts k) pk)) eqn:Hl.
  - exfalso. rewrite propose_position in Hc. exact (Hempty k pk Hpk Hc).
  - destruct (Nat.lt_trichotomy k i) as [Hlt | [Heq | Hgt]].
    + exfalso. exact (Hlowest k pk Hpk Hlt (Hwho k pk Hpk Hc)).
    + exact Heq.
    + exfalso. rewrite (Hafter k pk Hpk Hgt Hc) in Hl. discriminate.
Qed.

Lemma same_target_lower_id_moves_witness :
  exists pi' pj',
    movement (kitchen_world 20) [2; 3] (players (kitchen 20)) !! 0%nat
    = Some pi'
    /\ movement (kitchen_world 20) [2; 3] (players (kitchen 20)) !! 1%nat
       = Some pj'
    /\ position pi' = u8 7
    /\ position pj' = u8 8
    /\ position pj' <> u8 7
    /\ is_move WEST = true
    /\ word.unsigned (orientation pj') = 3
    /\ (forall k pk',
          movement (kitchen_world 20) [2; 3] (players (kitchen 20)) !! k
          = Some pk' -> position pk' = u8 7 -> k = 0%nat).
Proof.
  apply (same_target_lower_id_moves (kitchen_world 20) [2; 3]
           (players (kitchen 20)) 0 1
           (start_player (kitchen_world 20) 0)
           (start_player (kitchen_world 20) 1) (u8 7)).
  - lia.
  - reflexivity.
  - reflexivity.
  - reflexivity.
  - reflexivity.
  - intros [|[|k]] pk Hk; try discriminate Hk;
      injection Hk as <-; vm_compute; discriminate.
  - intros k pk Hk Hlt. lia.
Defined.

(** ** The ingredient cap *)

Lemma within_cap_default : within_cap Object_default.
Proof. unfold within_cap. vm_compute. discriminate. Qed.

Lemma within_cap_fresh n : within_cap (fresh_object n).
Proof. unfold within_cap. vm_compute. discriminate. Qed.

Lemma ltu_cap_unsigned (o : Object) :
  within_cap o ->
  word.ltu (num_ingredients o) (u8 MAX_NUM_INGREDIENTS) = true ->
  word.unsigned (num_onions o) + word.unsigned (num_tomatoes o)
  < MAX_NUM_INGREDIENTS.
Proof.
  unfold within_cap. intros Hcap Hlt.
  rewrite word.unsigned_ltu in Hlt. apply Z.ltb_lt in Hlt.
  rewrite num_ingredients_small in Hlt by (unfold MAX_NUM_INGREDIENTS in *; lia).
  rewrite u8_unsigned_small in Hlt by (unfold MAX_NUM_INGREDIENTS; lia).
  exact Hlt.
Qed.

Lemma within_cap_add_ingredient (pot : Object) (n : ObjectT) :
  within_cap pot ->
  word.ltu (num_ingredients pot) (u8 MAX_NUM_INGREDIENTS) = true ->
  within_cap (add_ingredient pot n).
Proof.
  intros Hcap Hlt. pose proof (ltu_cap_unsigned pot Hcap Hlt) as Hsum.
  pose proof (uint8_range (num_onions pot)) as Ho.
  pose proof (uint8_range (num_tomatoes pot)) as Ht.
  unfold within_cap, add_ingredient, MAX_NUM_INGREDIENTS in *.
  cbn [num_onions num_tomatoes].
  destruct n; cbn [ObjectT_eqb]; rewrite ?u8_unsigned_small; lia.
Qed.

Lemma within_cap_start_cooking ws (pot : Object) :
  within_cap pot -> within_cap (start_cooking ws pot).
Proof. intros H. exact H. Qed.

Lemma within_cap_tick_pot (o : Object) : within_cap o -> within_cap (tick_pot o).
Proof.
  intros H. unfold tick_pot.
  destruct (0 <? word.signed (cooking_tick o)); exact H.
Qed.

Lemma within_cap_lookup_total (objs : list Object) (k : nat) :
  Forall within_cap objs -> within_cap (objs !!! k).
Proof.
  intros H. rewrite list_lookup_total_alt.
  destruct (objs !! k) as [o|] eqn:Hk.
  - exact (proj1 (Forall_lookup _ _) H k o Hk).
  - exact within_cap_default.
Qed.

Lemma cook_pots_within_cap (locs : list uint8) (objs : list Object) :
  Forall within_cap objs -> Forall within_cap (cook_pots locs objs).
Proof.
  revert objs. induction locs as [|c cs IH]; intros objs H; simpl.
  - exact H.
  - apply IH, Forall_insert; [exact H|].
    apply within_cap_tick_pot, within_cap_lookup_total, H.
Qed.

Section EngineFacts.

Variable valid_recipe : WorldState -> Object -> bool.

Lemma interact_within_cap (ws : WorldState) (p : PlayerState) :
  Forall within_cap (objects ws) ->
  within_cap (held_object p) ->
  Forall within_cap (objects (fst (interact valid_recipe ws p)))
  /\ within_cap (held_object (snd (interact valid_recipe ws p))).
Proof.
  intros Hobjs Hheld. unfold interact.
  destruct (neighbour ws (position p) (word.unsigned (orientation p)))
    as [c|]; [|split; assumption].
  pose proof (within_cap_lookup_total _ (Z.to_nat c) Hobjs) as Hhere.
  fold (object_at ws c) in Hhere.
  destruct (terrain_at ws c).
  - split; assumption.
  - (* POT *)
    destruct (is_raw (name (get_object p))
              && word.ltu (num_ingredients (object_at ws c))
                          (u8 MAX_NUM_INGREDIENTS)
              && not_cooking (object_at ws c)) eqn:Hplace.
    + apply andb_prop in Hplace as [Hplace _].
      apply andb_prop in Hplace as [_ Hlt].
      split; [|exact within_cap_default].
      cbn [fst add_reward set_calculated_reward set_object_at set_objects
           objects].
      apply Forall_insert; [exact Hobjs|].
      pose proof (within_cap_add_ingredient _ (name (get_object p)) Hhere Hlt).
      destruct (valid_recipe ws _); [apply within_cap_start_cooking|];
        assumption.
    + destruct (ObjectT_eqb (name (get_object p)) DISH
                && (word.signed (cooking_tick (object_at ws c)) =? 0)
                && ObjectT_eqb (name (object_at ws c)) SOUP).
      * split; [|exact Hhere].
        cbn [fst add_reward set_calculated_reward set_object_at set_objects
             objects].
        apply Forall_insert; [exact Hobjs | exact within_cap_default].
      * split; assumption.
  - (* COUNTER *)
    destruct (negb (has_object p)
              && negb (ObjectT_eqb (name (object_at ws c)) NONE)).
    + split; [|exact Hhere].
      apply Forall_insert; [exact Hobjs | exact within_cap_default].
    + destruct (has_object p && ObjectT_eqb (name (object_at ws c)) NONE).
      * split; [|exact within_cap_default].
        apply Forall_insert; assumption.
      * split; assumption.
  - destruct (has_object p); split; try assumption. apply within_cap_fresh.
  - destruct (has_object p); split; try assumption. apply within_cap_fresh.
  - destruct (has_object p); split; try assumption. apply within_cap_fresh.
  - (* SERVING *)
    destruct (ObjectT_eqb (name (get_object p)) SOUP).
    + split; [exact Hobjs | exact within_cap_default].
    + split; assumption.
Qed.

Lemma interact_all_within_cap (ps : list PlayerState) :
  forall (ws : WorldState) (k : nat) (acts : list Z),
    Forall within_cap (objects ws) ->
    Forall (fun p => within_cap (held_object p)) ps ->
    Forall within_cap (objects (fst (interact_all valid_recipe ws k ps acts)))
    /\ Forall (fun p => within_cap (held_object p))
              (snd (interact_all valid_recipe ws k ps acts)).
Proof.
  induction ps as [|p ps IH]; intros ws k acts Hobjs Hps; simpl.
  - split; [exact Hobjs | constructor].
  - inversion Hps as [|? ? Hp Hps']; subst.
    assert (Hr : Forall within_cap
                   (objects (fst (match action_of acts k with
                                  | INTERACT => interact valid_recipe ws p
                                  | _ => (ws, p)
                                  end)))
                 /\ within_cap
                      (held_object (snd (match action_of acts k with
                                         | INTERACT => interact valid_recipe ws p
                                         | _ => (ws, p)
                                         end)))).
    { destruct (action_of acts k); try (split; assumption).
      apply interact_within_cap; assumption. }
    destruct Hr as [Hr1 Hr2].
    destruct (IH _ (S k) acts Hr1 Hps') as [H1 H2].
    split; [exact H1 | constructor; assumption].
Qed.

Lemma movement_within_cap ws acts (ps : list PlayerState) :
  Forall (fun p => within_cap (held_object p)) ps ->
  Forall (fun p => within_cap (held_object p)) (movement ws acts ps).
Proof.
  intros H. apply Forall_lookup. intros k q Hk.
  rewrite movement_lookup in Hk.
  destruct (ps !! k) as [p|] eqn:Hp; [|discriminate].
  injection Hk as <-.
  rewrite commit_player_held_object, propose_held_object.
  exact (proj1 (Forall_lookup _ _) H k p Hp).
Qed.

Lemma reset_state_within_cap (ws : WorldState) :
  all_within_cap (reset_state ws).
Proof.
  split; cbn [reset_state world players reset_world set_calculated_reward
              set_timestep set_objects objects].
  - apply Forall_replicate, within_cap_default.
  - apply Forall_fmap, Forall_forall. intros i _. exact within_cap_default.
Qed.

Lemma step_within_cap (st : SimState) (acts : list Z) (resetNow : bool) :
  all_within_cap st -> all_within_cap (step valid_recipe st acts resetNow).
Proof.
  intros [Hobjs Hps]. unfold step.
  set (ws0 := set_calculated_reward (world st) 0).
  set (r := interact_all valid_recipe ws0 0 (movement ws0 acts (players st))
                         acts).
  destruct (interact_all_within_cap (movement ws0 acts (players st))
              ws0 0%nat acts Hobjs (movement_within_cap ws0 acts _ Hps))
    as [H1 H2].
  fold r in H1, H2.
  match goal with |- context [if ?b then _ else _] => destruct b end.
  - apply reset_state_within_cap.
  - split; cbn [world players].
    + cbn [set_timestep objects cook_advance set_objects].
      apply cook_pots_within_cap, H1.
    + exact H2.
Qed.

(** C2: in every reachable state of a world - the initial state and any
    state obtained from it by per-tick transitions - every Object, in a
    grid cell (pots are grid cells) or in an agent's hands, satisfies
    num_onions + num_tomatoes <= MAX_NUM_INGREDIENTS. *)
Theorem reachable_within_cap (cfg : Cfg.Config) (st : SimState) :
  reachable valid_recipe cfg st ->
  all_within_cap st
  /\ (forall c : Z, within_cap (object_at (world st) c))
  /\ (forall (k : nat) (loc : uint8),
        pot_locs (world st) !! k = Some loc ->
        within_cap (object_at (world st) (word.unsigned loc))).
Proof.
  intros Hreach.
  assert (Hall : all_within_cap st).
  { induction Hreach as [ws Hmk | st acts resetNow _ IH].
    - apply reset_state_within_cap.
    - apply step_within_cap, IH. }
  split; [exact Hall|]. destruct Hall as [Hobjs _].
  split.
  - intros c. apply within_cap_lookup_total, Hobjs.
  - intros k loc _. apply within_cap_lookup_total, Hobjs.
Qed.

Lemma reachable_run (cfg : Cfg.Config) (ticks : list (list Z)) :
  forall st : SimState,
    reachable valid_recipe cfg st ->
    reachable valid_recipe cfg (run valid_recipe st ticks).
Proof.
  induction ticks as [|acts rest IH]; intros st H; simpl.
  - exact H.
  - apply IH, reachable_step, H.
Qed.

(** ** Starting to cook *)

Lemma neighbour_in_grid ws pos o c :
  neighbour ws pos o = Some c ->
  0 <= c < word.unsigned (height ws) * word.unsigned (width ws).
Proof.
  unfold neighbour.
  set (w := word.unsigned (width ws)). set (h := word.unsigned (height ws)).
  set (x := word.unsigned pos mod w + dir_dx o).
  set (y := word.unsigned pos / w + dir_dy o).
  clearbody x y w h. cbv zeta.
  destruct ((0 <=? x) && (x <? w) && (0 <=? y) && (y <? h)) eqn:Hin;
    [|discriminate].
  intros [= <-].
  apply andb_prop in Hin as [Hin Hy2]. apply andb_prop in Hin as [Hin Hy1].
  apply andb_prop in Hin as [Hx1 Hx2].
  apply Z.leb_le in Hx1, Hy1. apply Z.ltb_lt in Hx2, Hy2.
  assert (y * w <= (h - 1) * w) by (apply Z.mul_le_mono_nonneg_r; lia).
  assert (0 <= y * w) by (apply Z.mul_nonneg_nonneg; lia).
  lia.
Qed.

Lemma signed_of_byte (w : uint8) :
  word.signed w
  = if word.unsigned w <=? 127 then word.unsigned w else word.unsigned w - 256.
Proof.
  rewrite word.signed_eq_swrap_unsigned. unfold word.swrap.
  pose proof (uint8_range w) as Hw.
  change (2 ^ (8 - 1)) with 128. change (2 ^ 8) with 256.
  destruct (Z.leb_spec (word.unsigned w) 127) as [Hle | Hgt].
  - rewrite Z.mod_small; lia.
  - replace (word.unsigned w + 128)
      with ((word.unsigned w - 128) + 1 * 256) by lia.
    rewrite Z.mod_add by lia. rewrite Z.mod_small; lia.
Qed.

(** C3 (amended): when an agent holding a raw ingredient interacts with a
    pot that is below the cap and not cooking, and the placement completes
    a valid recipe, the pot's cooking-progress counter receives the eight
    bits of the [recipe_times] entry of the new composition.  Read as the
    signed counter it is, it equals the cook time when the entry is at most
    127 and the entry minus 256 when the entry is 128..255. *)
Theorem placement_sets_cook_time
    (ws : WorldState) (p : PlayerState) (c : Z) :
  WorldState_wf ws ->
  within_cap (object_at ws c) ->
  neighbour ws (position p) (word.unsigned (orientation p)) = Some c ->
  terrain_at ws c = POT ->
  is_raw (name (held_object p)) = true ->
  word.ltu (num_ingredients (object_at ws c)) (u8 MAX_NUM_INGREDIENTS) = true ->
  not_cooking (object_at ws c) = true ->
  valid_recipe ws (add_ingredient (object_at ws c) (name (held_object p)))
  = true ->
  exists entry : uint8,
    table_read (recipe_times ws)
      (get_recipe (add_ingredient (object_at ws c) (name (held_object p))))
    = Some entry
    /\ get_recipe (object_at (fst (interact valid_recipe ws p)) c)
       = get_recipe (add_ingredient (object_at ws c) (name (held_object p)))
    /\ cooking_tick (object_at (fst (interact valid_recipe ws p)) c) = entry
    /\ (word.unsigned entry <= 127 ->
        word.signed (cooking_tick (object_at (fst (interact valid_recipe ws p)) c))
        = word.unsigned entry)
    /\ (128 <= word.unsigned entry ->
        word.signed (cooking_tick (object_at (fst (interact valid_recipe ws p)) c))
        = word.unsigned entry - 256).
Proof.
  intros Hwf Hcap Hface Hpot Hraw Hlt Hidle Hvalid.
  set (pot := add_ingredient (object_at ws c) (name (held_object p))) in *.
  assert (Hcap' : within_cap pot)
    by (apply within_cap_add_ingredient; assumption).
  (* the read of the table is inside the table *)
  assert (Hread : exists entry, table_read (recipe_times ws) (get_recipe pot)
                                = Some entry).
  { pose proof (uint8_range (num_onions pot)).
    pose proof (uint8_range (num_tomatoes pot)).
    unfold within_cap, MAX_NUM_INGREDIENTS in Hcap'.
    apply get_recipe_in_bounds_aux;
      [unfold MAX_NUM_INGREDIENTS; lia | unfold MAX_NUM_INGREDIENTS; lia
      | apply (wf_recipe_times _ Hwf)]. }
  destruct Hread as [entry Hentry]. exists entry.
  (* the cell after the interaction *)
  assert (Hafter : object_at (fst (interact valid_recipe ws p)) c
                   = start_cooking ws pot).
  { unfold interact. rewrite Hface, Hpot.
    unfold get_object. fold pot. rewrite Hraw, Hlt, Hidle, Hvalid.
    cbn [andb fst add_reward set_calculated_reward set_object_at set_objects].
    unfold object_at at 1. cbn [objects].
    apply list_lookup_total_insert_eq.
    pose proof (neighbour_in_grid _ _ _ _ Hface) as Hc.
    pose proof (wf_grid _ Hwf) as Hg.
    rewrite (wf_objects _ Hwf). lia. }
  rewrite Hafter.
  assert (Htick : cooking_tick (start_cooking ws pot) = entry).
  { unfold start_cooking, cook_time. cbn [cooking_tick].
    rewrite Hentry. reflexivity. }
  split; [exact Hentry|]. split; [reflexivity|]. split; [exact Htick|].
  rewrite Htick, signed_of_byte.
  split; intros Hrange.
  - destruct (Z.leb_spec (word.unsigned entry) 127); [reflexivity | lia].
  - destruct (Z.leb_spec (word.unsigned entry) 127); [lia | reflexivity].
Qed.

End EngineFacts.

(** ** The layout of a world is fixed *)

Lemma same_layout_refl ws : same_layout ws ws.
Proof. repeat split; reflexivity. Qed.

Lemma same_layout_trans a b c :
  same_layout a b -> same_layout b c -> same_layout a c.
Proof.
  intros (?&?&?&?&?&?) (?&?&?&?&?&?). repeat split; congruence.
Qed.

Lemma same_layout_set_object_at ws c o : same_layout ws (set_object_at ws c o).
Proof.
  repeat split; try reflexivity.
  unfold set_object_at, set_objects; cbn [objects]. apply length_insert.
Qed.

Lemma same_layout_add_reward ws r : same_layout ws (add_reward ws r).
Proof. repeat split; reflexivity. Qed.

Lemma cook_pots_length locs : forall objs, length (cook_pots locs objs) = length objs.
Proof.
  induction locs as [|c cs IH]; intros objs; simpl; [reflexivity|].
  rewrite IH. apply length_insert.
Qed.

Section LayoutFacts.

Variable valid_recipe : WorldState -> Object -> bool.

Lemma interact_layout ws p : same_layout ws (fst (interact valid_recipe ws p)).
Proof.
  unfold interact.
  repeat match goal with
         | |- same_layout ?a (fst (?x, _)) => change (same_layout a x)
         | |- same_layout ?a ?a => apply same_layout_refl
         | |- same_layout ?a (add_reward ?b _) =>
             apply (same_layout_trans a b); [|apply same_layout_add_reward]
         | |- same_layout ?a (set_object_at ?a _ _) =>
             apply same_layout_set_object_at
         | |- context [match ?x with _ => _ end] => destruct x
         end.
Qed.

Lemma interact_all_layout ps :
  forall ws k acts,
    same_layout ws (fst (interact_all valid_recipe ws k ps acts)).
Proof.
  induction ps as [|p ps IH]; intros ws k acts; simpl.
  - apply same_layout_refl.
  - eapply same_layout_trans; [|apply IH].
    destruct (action_of acts k); try apply same_layout_refl.
    apply interact_layout.
Qed.

Lemma step_wf st acts resetNow :
  WorldState_wf (world st) ->
  WorldState_wf (world (step valid_recipe st acts resetNow)).
Proof.
  intros [W1 W2 W3 W4 W5]. unfold step.
  set (ws0 := set_calculated_reward (world st) 0).
  pose proof (interact_all_layout (movement ws0 acts (players st)) ws0 0%nat acts)
    as (Ho & Ht & Hh & Hw & Hv & Hti).
  match goal with |- context [if ?b then _ else _] => destruct b end;
    split;
    cbn [world reset_state reset_world set_calculated_reward set_timestep
         set_objects cook_advance objects terrain height width recipe_values
         recipe_times];
    rewrite ?length_replicate, ?cook_pots_length; try reflexivity;
    rewrite ?Ho, ?Ht, ?Hh, ?Hw, ?Hv, ?Hti; assumption.
Qed.

Lemma make_world_wf cfg ws :
  make_world cfg = Some ws ->
  0 <= Cfg.height cfg -> 0 <= Cfg.width cfg ->
  WorldState_wf ws.
Proof.
  intros Hmk Hh Hw. unfold make_world in Hmk.
  destruct (mapM TerrainT_of_code (Cfg.terrain cfg)) as [cells|];
    [|discriminate].
  destruct (config_ok cfg cells) eqn:Hok; [|discriminate].
  injection Hmk as <-.
  destruct (config_ok_dimensions _ _ Hok) as [_ Hcap].
  unfold config_ok in Hok.
  repeat (apply andb_prop in Hok; destruct Hok as [Hok ?]).
  split.
  - reflexivity.
  - apply length_resize.
  - change (length (u8 <$> Cfg.recipe_values cfg) = Z.to_nat NUM_RECIPES).
    rewrite length_fmap. apply Z.eqb_eq in H1. lia.
  - change (length (u8 <$> Cfg.recipe_times cfg) = Z.to_nat NUM_RECIPES).
    rewrite length_fmap. apply Z.eqb_eq in H0. lia.
  - change (word.unsigned (u8 (Cfg.height cfg))
            * word.unsigned (u8 (Cfg.width cfg)) <= MAX_SIZE).
    rewrite !u8_unsigned. change (2 ^ 8) with 256.
    pose proof (Z.mod_le (Cfg.height cfg) 256 Hh ltac:(lia)).
    pose proof (Z.mod_le (Cfg.width cfg) 256 Hw ltac:(lia)).
    pose proof (Z.mod_pos_bound (Cfg.height cfg) 256 ltac:(lia)).
    pose proof (Z.mod_pos_bound (Cfg.width cfg) 256 ltac:(lia)).
    unfold MAX_SIZE in *. nia.
Qed.

(** The worlds of reachable states are well formed. *)
Lemma reachable_wf cfg st :
  0 <= Cfg.height cfg -> 0 <= Cfg.width cfg ->
  reachable valid_recipe cfg st -> WorldState_wf (world st).
Proof.
  intros Hh Hw Hreach.
  induction Hreach as [ws Hmk | st acts resetNow _ IH].
  - pose proof (make_world_wf _ _ Hmk Hh Hw) as [W1 W2 W3 W4 W5].
    split; [apply length_replicate | exact W2 | exact W3 | exact W4
           | exact W5].
  - apply step_wf, IH.
Qed.

End LayoutFacts.

(** ** The kitchen *)

Lemma reachable_within_cap_witness :
  all_within_cap (run full_pot (kitchen 20) three_onions)
  /\ (forall c : Z,
        within_cap (object_at (world (run full_pot (kitchen 20) three_onions)) c))
  /\ (forall (k : nat) (loc : uint8),
        pot_locs (world (run full_pot (kitchen 20) three_onions)) !! k
        = Some loc ->
        within_cap (object_at (world (run full_pot (kitchen 20) three_onions))
                              (word.unsigned loc))).
Proof.
  apply (reachable_within_cap full_pot (kitchen_config 20)).
  apply reachable_run, reachable_init. reflexivity.
Defined.

(** The state in which agent 0 is about to place the third onion is a
    state of the game, whatever the cook time. *)
Lemma third_onion_state_reachable (cook : Z) :
  reachable full_pot (kitchen_config cook) (third_onion_state cook).
Proof.
  unfold third_onion_state, kitchen.
  apply reachable_run, reachable_init, make_world_kitchen.
Qed.

(** C3 fails for a cook time of 200: agent 0 faces the pot (cell 1) with an
    onion in hand, the pot holds two onions and is not cooking, the third
    onion completes the recipe, the table entry for three onions is 200,
    and the pot's cooking-progress counter afterwards reads -56. *)
Lemma cook_time_200_reads_negative :
  neighbour (world (third_onion_state 200))
            (position (third_onion_agent 200))
            (word.unsigned (orientation (third_onion_agent 200))) = Some 1
  /\ terrain_at (world (third_onion_state 200)) 1 = POT
  /\ name (held_object (third_onion_agent 200)) = ONION
  /\ word.unsigned (num_ingredients (object_at (world (third_onion_state 200)) 1))
     = 2
  /\ not_cooking (object_at (world (third_onion_state 200)) 1) = true
  /\ full_pot (world (third_onion_state 200))
       (add_ingredient (object_at (world (third_onion_state 200)) 1) ONION)
     = true
  /\ word.unsigned (num_onions (object_at (third_onion_placed 200) 1)) = 3
  /\ option_map word.unsigned
       (table_read (recipe_times (third_onion_placed 200))
                   (get_recipe (object_at (third_onion_placed 200) 1)))
     = Some 200
  /\ word.signed (cooking_tick (object_at (third_onion_placed 200) 1)) = -56.
Proof. vm_compute. repeat split; reflexivity. Qed.

Lemma placement_sets_cook_time_witness :
  exists entry : uint8,
    table_read (recipe_times (world (third_onion_state 20)))
      (get_recipe (add_ingredient (object_at (world (third_onion_state 20)) 1)
                                  (name (held_object (third_onion_agent 20)))))
    = Some entry
    /\ get_recipe (object_at (third_onion_placed 20) 1)
       = get_recipe (add_ingredient
                       (object_at (world (third_onion_state 20)) 1)
                       (name (held_object (third_onion_agent 20))))
    /\ cooking_tick (object_at (third_onion_placed 20) 1) = entry
    /\ (word.unsigned entry <= 127 ->
        word.signed (cooking_tick (object_at (third_onion_placed 20) 1))
        = word.unsigned entry)
    /\ (128 <= word.unsigned entry ->
        word.signed (cooking_tick (object_at (third_onion_placed 20) 1))
        = word.unsigned entry - 256).
Proof.
  apply (placement_sets_cook_time full_pot (world (third_onion_state 20))
           (third_onion_agent 20) 1).
  - split; vm_compute; first [reflexivity | discriminate].
  - vm_compute. discriminate.
  - reflexivity.
  - reflexivity.
  - reflexivity.
  - reflexivity.
  - reflexivity.
  - reflexivity.
Defined.

(** * Further facts about the members of [sim.hpp] *)

(** ** [Object::num_ingredients] and [Object::get_recipe] *)

(** X1: [num_ingredients] returns the sum of the two counts modulo 256: it
    is the sum exactly when the sum is at most 255, and the sum minus 256
    otherwise. *)
Theorem num_ingredients_wraps (o : Object) :
  word.unsigned (num_ingredients o)
  = (word.unsigned (num_onions o) + word.unsigned (num_tomatoes o)) mod 256
  /\ (word.unsigned (num_ingredients o)
      = word.unsigned (num_onions o) + word.unsigned (num_tomatoes o)
      <-> word.unsigned (num_onions o) + word.unsigned (num_tomatoes o) <= 255)
  /\ (256 <= word.unsigned (num_onions o) + word.unsigned (num_tomatoes o) ->
      word.unsigned (num_ingredients o)
      = word.unsigned (num_onions o) + word.unsigned (num_tomatoes o) - 256).
Proof.
  pose proof (uint8_range (num_onions o)) as Ho.
  pose proof (uint8_range (num_tomatoes o)) as Ht.
  pose proof (uint8_range (num_ingredients o)) as Hn.
  split; [apply u8_unsigned|]. split; [split|].
  - intros E. lia.
  - intros Hle. apply num_ingredients_small. lia.
  - intros Hge. unfold num_ingredients. rewrite u8_unsigned.
    change (2 ^ 8) with 256.
    replace (word.unsigned (num_onions o) + word.unsigned (num_tomatoes o))
      with ((word.unsigned (num_onions o) + word.unsigned (num_tomatoes o)
             - 256) + 1 * 256) at 1 by lia.
    rewrite Z.mod_add by lia. apply Z.mod_small. lia.
Qed.

Lemma get_recipe_small (o : Object) :
  (MAX_NUM_INGREDIENTS + 1) * word.unsigned (num_onions o)
  + word.unsigned (num_tomatoes o) <= 255 ->
  word.unsigned (get_recipe o)
  = (MAX_NUM_INGREDIENTS + 1) * word.unsigned (num_onions o)
    + word.unsigned (num_tomatoes o).
Proof.
  intros H. unfold get_recipe. apply u8_unsigned_small.
  pose proof (uint8_range (num_onions o)).
  pose proof (uint8_range (num_tomatoes o)).
  unfold MAX_NUM_INGREDIENTS in *. lia.
Qed.

(** X14: over all values of the struct, [get_recipe] returns
    [(MAX_NUM_INGREDIENTS+1) * onions + tomatoes] modulo 256: the index is
    that number exactly when the number is at most 255. *)
Theorem get_recipe_wraps (o : Object) :
  word.unsigned (get_recipe o)
  = ((MAX_NUM_INGREDIENTS + 1) * word.unsigned (num_onions o)
     + word.unsigned (num_tomatoes o)) mod 256
  /\ (word.unsigned (get_recipe o)
      = (MAX_NUM_INGREDIENTS + 1) * word.unsigned (num_onions o)
        + word.unsigned (num_tomatoes o)
      <-> (MAX_NUM_INGREDIENTS + 1) * word.unsigned (num_onions o)
          + word.unsigned (num_tomatoes o) <= 255).
Proof.
  pose proof (uint8_range (get_recipe o)) as Rr.
  split; [apply u8_unsigned|]. split.
  - intros E. lia.
  - apply get_recipe_small.
Qed.

(** X2: on objects with at most [MAX_NUM_INGREDIENTS] tomatoes and at most
    63 onions the recipe index determines the composition: the onion count
    is the index divided by [MAX_NUM_INGREDIENTS + 1], the tomato count the
    remainder, and two such objects with the same index have the same
    counts. *)
Theorem get_recipe_injective (o1 o2 : Object) :
  word.unsigned (num_tomatoes o1) <= MAX_NUM_INGREDIENTS ->
  word.unsigned (num_onions o1) <= 63 ->
  word.unsigned (num_tomatoes o2) <= MAX_NUM_INGREDIENTS ->
  word.unsigned (num_onions o2) <= 63 ->
  word.unsigned (num_onions o1)
  = word.unsigned (get_recipe o1) / (MAX_NUM_INGREDIENTS + 1)
  /\ word.unsigned (num_tomatoes o1)
     = word.unsigned (get_recipe o1) mod (MAX_NUM_INGREDIENTS + 1)
  /\ (get_recipe o1 = get_recipe o2 ->
      num_onions o1 = num_onions o2 /\ num_tomatoes o1 = num_tomatoes o2).
Proof.
  intros Ht1 Ho1 Ht2 Ho2.
  pose proof (uint8_range (num_onions o1)) as Ro1.
  pose proof (uint8_range (num_tomatoes o1)) as Rt1.
  pose proof (uint8_range (num_onions o2)) as Ro2.
  pose proof (uint8_range (num_tomatoes o2)) as Rt2.
  assert (E1 : word.unsigned (get_recipe o1)
               = 4 * word.unsigned (num_onions o1)
                 + word.unsigned (num_tomatoes o1))
    by (rewrite get_recipe_small; unfold MAX_NUM_INGREDIENTS in *; lia).
  assert (E2 : word.unsigned (get_recipe o2)
               = 4 * word.unsigned (num_onions o2)
                 + word.unsigned (num_tomatoes o2))
    by (rewrite get_recipe_small; unfold MAX_NUM_INGREDIENTS in *; lia).
  unfold MAX_NUM_INGREDIENTS in *.
  rewrite E1.
  split; [|split].
  - change (3 + 1) with 4.
    apply (Z.div_unique _ 4 _ (word.unsigned (num_tomatoes o1))); lia.
  - change (3 + 1) with 4.
    apply (Z.mod_unique _ 4 (word.unsigned (num_onions o1))); lia.
  - intros E. apply (f_equal word.unsigned) in E.
    rewrite E1, E2 in E.
    split; apply word.unsigned_inj; lia.
Qed.

Lemma get_recipe_injective_witness :
  word.unsigned (num_onions two_onions_one_tomato)
  = word.unsigned (get_recipe two_onions_one_tomato) / (MAX_NUM_INGREDIENTS + 1)
  /\ word.unsigned (num_tomatoes two_onions_one_tomato)
     = word.unsigned (get_recipe two_onions_one_tomato)
       mod (MAX_NUM_INGREDIENTS + 1)
  /\ (get_recipe two_onions_one_tomato
      = get_recipe dish_two_onions_one_tomato ->
      num_onions two_onions_one_tomato
      = num_onions dish_two_onions_one_tomato
      /\ num_tomatoes two_onions_one_tomato
         = num_tomatoes dish_two_onions_one_tomato).
Proof.
  apply (get_recipe_injective two_onions_one_tomato
           dish_two_onions_one_tomato); vm_compute; discriminate.
Defined.

(** X3: outside the tomato cap the recipe index is shared: an object with
    more than [MAX_NUM_INGREDIENTS] tomatoes and fewer than 255 onions has
    the recipe index of the object with one onion more and
    [MAX_NUM_INGREDIENTS + 1] tomatoes fewer, a different composition. *)
Theorem get_recipe_aliases (o : Object) :
  MAX_NUM_INGREDIENTS < word.unsigned (num_tomatoes o) ->
  word.unsigned (num_onions o) < 255 ->
  get_recipe (recipe_alias o) = get_recipe o
  /\ word.unsigned (num_onions (recipe_alias o))
     = word.unsigned (num_onions o) + 1
  /\ word.unsigned (num_tomatoes (recipe_alias o))
     = word.unsigned (num_tomatoes o) - (MAX_NUM_INGREDIENTS + 1).
Proof.
  intros Ht Ho.
  pose proof (uint8_range (num_onions o)) as Ro.
  pose proof (uint8_range (num_tomatoes o)) as Rt.
  unfold MAX_NUM_INGREDIENTS in *.
  assert (E1 : word.unsigned (num_onions (recipe_alias o))
               = word.unsigned (num_onions o) + 1).
  { unfold recipe_alias. cbn [num_onions]. apply u8_unsigned_small. lia. }
  assert (E2 : word.unsigned (num_tomatoes (recipe_alias o))
               = word.unsigned (num_tomatoes o) - (3 + 1)).
  { unfold recipe_alias, MAX_NUM_INGREDIENTS. cbn [num_tomatoes].
    apply u8_unsigned_small. lia. }
  split; [|split; assumption].
  unfold get_recipe, MAX_NUM_INGREDIENTS. rewrite E1, E2. f_equal. lia.
Qed.

Lemma get_recipe_aliases_witness :
  get_recipe (recipe_alias four_tomatoes) = get_recipe four_tomatoes
  /\ word.unsigned (num_onions (recipe_alias four_tomatoes))
     = word.unsigned (num_onions four_tomatoes) + 1
  /\ word.unsigned (num_tomatoes (recipe_alias four_tomatoes))
     = word.unsigned (num_tomatoes four_tomatoes) - (MAX_NUM_INGREDIENTS + 1).
Proof.
  apply (get_recipe_aliases four_tomatoes); vm_compute; reflexivity.
Defined.

(** X4: a read of a [NUM_RECIPES]-entry table at [get_recipe] is inside the
    table exactly when [(MAX_NUM_INGREDIENTS+1) * onions + tomatoes], taken
    modulo 256, is below [NUM_RECIPES]; when that number lies in
    [NUM_RECIPES..255] the read is past the end. *)
Theorem get_recipe_read_iff (o : Object) (tbl : list uint8) :
  length tbl = Z.to_nat NUM_RECIPES ->
  (is_Some (table_read tbl (get_recipe o))
   <-> ((MAX_NUM_INGREDIENTS + 1) * word.unsigned (num_onions o)
        + word.unsigned (num_tomatoes o)) mod 256 < NUM_RECIPES)
  /\ (NUM_RECIPES <= (MAX_NUM_INGREDIENTS + 1) * word.unsigned (num_onions o)
                     + word.unsigned (num_tomatoes o) <= 255 ->
      table_read tbl (get_recipe o) = None).
Proof.
  intros Hlen.
  pose proof (uint8_range (get_recipe o)) as Rr.
  assert (Hiff : is_Some (table_read tbl (get_recipe o))
                 <-> word.unsigned (get_recipe o) < NUM_RECIPES).
  { unfold table_read. rewrite lookup_lt_is_Some, Hlen.
    unfold NUM_RECIPES, MAX_NUM_INGREDIENTS. lia. }
  split.
  - rewrite Hiff. unfold get_recipe. rewrite u8_unsigned. reflexivity.
  - intros Hrange. rewrite <- (get_recipe_small o) in Hrange by lia.
    destruct (table_read tbl (get_recipe o)) as [v|] eqn:Hv; [|reflexivity].
    exfalso. assert (Hs : is_Some (Some v)) by (eexists; reflexivity).
    apply Hiff in Hs. lia.
Qed.

Lemma get_recipe_read_iff_witness :
  (is_Some (table_read flat_table (get_recipe five_onions))
   <-> ((MAX_NUM_INGREDIENTS + 1) * word.unsigned (num_onions five_onions)
        + word.unsigned (num_tomatoes five_onions)) mod 256 < NUM_RECIPES)
  /\ (NUM_RECIPES
      <= (MAX_NUM_INGREDIENTS + 1) * word.unsigned (num_onions five_onions)
         + word.unsigned (num_tomatoes five_onions) <= 255 ->
      table_read flat_table (get_recipe five_onions) = None).
Proof. apply (get_recipe_read_iff five_onions flat_table). reflexivity. Defined.

(** X5: an object with at most [MAX_NUM_INGREDIENTS] ingredients in all has
    one of ten recipe indices, none above
    [MAX_NUM_INGREDIENTS * (MAX_NUM_INGREDIENTS + 1)]: six of the
    [NUM_RECIPES] table entries are never read for such objects. *)
Theorem get_recipe_capped (o : Object) :
  word.unsigned (num_onions o) + word.unsigned (num_tomatoes o)
  <= MAX_NUM_INGREDIENTS ->
  In (word.unsigned (get_recipe o)) capped_recipes
  /\ word.unsigned (get_recipe o)
     <= MAX_NUM_INGREDIENTS * (MAX_NUM_INGREDIENTS + 1)
  /\ length capped_recipes = 10%nat.
Proof.
  intros Hcap.
  pose proof (uint8_range (num_onions o)) as Ro.
  pose proof (uint8_range (num_tomatoes o)) as Rt.
  assert (E : word.unsigned (get_recipe o)
              = 4 * word.unsigned (num_onions o)
                + word.unsigned (num_tomatoes o))
    by (rewrite get_recipe_small; unfold MAX_NUM_INGREDIENTS in *; lia).
  unfold MAX_NUM_INGREDIENTS in *. rewrite E.
  split; [|split; [lia | reflexivity]].
  unfold capped_recipes. cbn [In]. lia.
Qed.

Lemma get_recipe_capped_witness :
  In (word.unsigned (get_recipe two_onions_one_tomato)) capped_recipes
  /\ word.unsigned (get_recipe two_onions_one_tomato)
     <= MAX_NUM_INGREDIENTS * (MAX_NUM_INGREDIENTS + 1)
  /\ length capped_recipes = 10%nat.
Proof.
  apply (get_recipe_capped two_onions_one_tomato). vm_compute. discriminate.
Defined.

(** ** [PlayerState]: proposing and committing *)

Lemma u8_eq_iff (p q : Z) : u8 p = u8 q <-> p mod 256 = q mod 256.
Proof.
  split.
  - intros E. apply (f_equal word.unsigned) in E.
    rewrite !u8_unsigned in E. exact E.
  - intros E. apply word.unsigned_inj. rewrite !u8_unsigned. exact E.
Qed.

(** X6: [propose_pos_and_or] keeps the proposed position and orientation
    modulo 256: the stored position reads back as [p] exactly when
    [0 <= p <= 255], and two positions are stored alike exactly when they
    are congruent modulo 256. *)
Theorem propose_pos_and_or_narrows (s : PlayerState) (p o q : Z) :
  word.unsigned (proposed_position (propose_pos_and_or s p o)) = p mod 256
  /\ word.unsigned (proposed_orientation (propose_pos_and_or s p o))
     = o mod 256
  /\ (word.unsigned (proposed_position (propose_pos_and_or s p o)) = p
      <-> 0 <= p <= 255)
  /\ (proposed_position (propose_pos_and_or s p o)
      = proposed_position (propose_pos_and_or s q o)
      <-> p mod 256 = q mod 256).
Proof.
  unfold propose_pos_and_or. cbn [proposed_position proposed_orientation].
  split; [apply u8_unsigned|]. split; [apply u8_unsigned|].
  split; [|apply u8_eq_iff].
  pose proof (uint8_range (u8 p)) as R. split.
  - intros E. lia.
  - intros H. apply u8_unsigned_small. lia.
Qed.

(** X7: committing a proposal with [update_pos_and_or] puts the agent on
    cell [p mod 256] facing [o mod 256]; committing it with [update_or]
    leaves the agent where it was, facing [o mod 256]; neither touches the
    held object, and of two proposals in a row the later one stands. *)
Theorem propose_then_commit (s : PlayerState) (p o p' o' : Z) :
  word.unsigned (position (update_pos_and_or (propose_pos_and_or s p o)))
  = p mod 256
  /\ word.unsigned (orientation (update_pos_and_or (propose_pos_and_or s p o)))
     = o mod 256
  /\ position (update_or (propose_pos_and_or s p o)) = position s
  /\ word.unsigned (orientation (update_or (propose_pos_and_or s p o)))
     = o mod 256
  /\ held_object (update_pos_and_or (propose_pos_and_or s p o))
     = held_object s
  /\ held_object (update_or (propose_pos_and_or s p o)) = held_object s
  /\ propose_pos_and_or (propose_pos_and_or s p o) p' o'
     = propose_pos_and_or s p' o'.
Proof.
  unfold update_pos_and_or, update_or, propose_pos_and_or.
  cbn [position orientation proposed_position proposed_orientation
       held_object].
  split; [apply u8_unsigned|]. split; [apply u8_unsigned|].
  split; [reflexivity|]. split; [apply u8_unsigned|].
  split; [reflexivity|]. split; reflexivity.
Qed.

(** X8: an agent that proposes its own position and orientation and then
    commits, with either commit, stands and faces as before and holds what
    it held: the 8-bit position survives the trip through the [int32_t]
    arguments. *)
Theorem propose_own_place (s : PlayerState) :
  position (update_pos_and_or
              (propose_pos_and_or s (word.unsigned (position s))
                                    (word.unsigned (orientation s))))
  = position s
  /\ orientation (update_pos_and_or
                    (propose_pos_and_or s (word.unsigned (position s))
                                          (word.unsigned (orientation s))))
     = orientation s
  /\ update_or (propose_pos_and_or s (word.unsigned (position s))
                                     (word.unsigned (orientation s)))
     = update_pos_and_or
         (propose_pos_and_or s (word.unsigned (position s))
                               (word.unsigned (orientation s)))
  /\ held_object (update_pos_and_or
                    (propose_pos_and_or s (word.unsigned (position s))
                                          (word.unsigned (orientation s))))
     = held_object s.
Proof.
  unfold update_pos_and_or, update_or, propose_pos_and_or.
  cbn [position orientation proposed_position proposed_orientation
       held_object].
  rewrite !u8_of_unsigned. repeat split; reflexivity.
Qed.

(** X9: the commits are idempotent, [update_pos_and_or] absorbs
    [update_or] on either side, and a commit leaves the proposal in place,
    so a commit after a commit changes nothing. *)
Theorem commit_idempotent (s : PlayerState) :
  update_pos_and_or (update_pos_and_or s) = update_pos_and_or s
  /\ update_or (update_or s) = update_or s
  /\ update_or (update_pos_and_or s) = update_pos_and_or s
  /\ update_pos_and_or (update_or s) = update_pos_and_or s.
Proof. repeat split; reflexivity. Qed.

(** X10: whatever a [PlayerState] holds as position or proposed position,
    and whatever cell an entry of [pot_locs] or [counter_locs] names, is an
    index inside the [MAX_SIZE]-entry arrays [objects] and [terrain] of a
    world: the 8-bit members cannot name a cell past the arrays. *)
Theorem position_indexes_grid (ws : WorldState) (s : PlayerState) :
  WorldState_wf ws ->
  is_Some (objects ws !! Z.to_nat (word.unsigned (position s)))
  /\ is_Some (terrain ws !! Z.to_nat (word.unsigned (position s)))
  /\ is_Some (objects ws !! Z.to_nat (word.unsigned (proposed_position s)))
  /\ is_Some (terrain ws !! Z.to_nat (word.unsigned (proposed_position s)))
  /\ (forall (k : nat) (loc : uint8),
        pot_locs ws !! k = Some loc \/ counter_locs ws !! k = Some loc ->
        is_Some (objects ws !! Z.to_nat (word.unsigned loc))
        /\ is_Some (terrain ws !! Z.to_nat (word.unsigned loc))).
Proof.
  intros Hwf.
  pose proof (uint8_range (position s)) as Rp.
  pose proof (uint8_range (proposed_position s)) as Rq.
  rewrite !lookup_lt_is_Some, (wf_objects _ Hwf), (wf_terrain _ Hwf).
  unfold MAX_SIZE.
  split; [lia|]. split; [lia|]. split; [lia|]. split; [lia|].
  intros k loc _. pose proof (uint8_range loc) as Rl.
  rewrite !lookup_lt_is_Some, (wf_objects _ Hwf), (wf_terrain _ Hwf).
  unfold MAX_SIZE. lia.
Qed.

Lemma position_indexes_grid_witness :
  is_Some (objects (kitchen_world 20)
             !! Z.to_nat (word.unsigned (position corner_player)))
  /\ is_Some (terrain (kitchen_world 20)
                !! Z.to_nat (word.unsigned (position corner_player)))
  /\ is_Some (objects (kitchen_world 20)
                !! Z.to_nat (word.unsigned (proposed_position corner_player)))
  /\ is_Some (terrain (kitchen_world 20)
                !! Z.to_nat (word.unsigned (proposed_position corner_player)))
  /\ (forall (k : nat) (loc : uint8),
        pot_locs (kitchen_world 20) !! k = Some loc
        \/ counter_locs (kitchen_world 20) !! k = Some loc ->
        is_Some (objects (kitchen_world 20) !! Z.to_nat (word.unsigned loc))
        /\ is_Some (terrain (kitchen_world 20)
                      !! Z.to_nat (word.unsigned loc))).
Proof.
  apply (position_indexes_grid (kitchen_world 20) corner_player).
  split; vm_compute; first [reflexivity | discriminate].
Defined.

(** ** [PlayerState]: the held object *)

(** X11: [set_object] and [get_object] are a store and a load: the load
    returns what was stored, a second store replaces the first, storing what
    is held changes nothing, and after a store [has_object] tells whether
    the stored object's name is something other than [NONE], whatever its
    counts. *)
Theorem set_get_object (s : PlayerState) (a b : Object) :
  get_object (set_object s a) = a
  /\ set_object (set_object s a) b = set_object s b
  /\ set_object s (get_object s) = s
  /\ (has_object (set_object s a) = true <-> name a <> NONE)
  /\ position (set_object s a) = position s
  /\ orientation (set_object s a) = orientation s.
Proof.
  split; [reflexivity|]. split; [reflexivity|].
  split; [destruct s; reflexivity|].
  split; [|split; reflexivity].
  unfold has_object, set_object. cbn [held_object].
  destruct (ObjectT_eqb_spec (name a) NONE) as [E | E];
    cbn [negb]; split; intros H; congruence.
Qed.

(** X12: [remove_object] hands out a named object exactly when the agent
    held one; putting the returned object back restores the agent; and on
    an agent whose hands were just emptied a further [remove_object]
    returns the default object and leaves the agent as it is. *)
Theorem remove_object_empty_hands (s : PlayerState) :
  (name (fst (remove_object s)) <> NONE <-> has_object s = true)
  /\ set_object (snd (remove_object s)) (fst (remove_object s)) = s
  /\ fst (remove_object (snd (remove_object s))) = Object_default
  /\ snd (remove_object (snd (remove_object s))) = snd (remove_object s).
Proof.
  split; [|split; [destruct s; reflexivity | split; reflexivity]].
  unfold remove_object, has_object. cbn [fst].
  destruct (ObjectT_eqb_spec (name (held_object s)) NONE) as [E | E];
    cbn [negb]; split; intros H; congruence.
Qed.

(** ** [Object::cooking_tick] against the recipe tables *)

(** X13: the [int8_t] counter [cooking_tick] lies in -128..127, so it never
    equals a [uint8_t] table entry of 128 or more; a counter holding the
    bits of an entry reads as the entry when the entry is at most 127 and
    as the entry minus 256 otherwise. *)
Theorem cooking_tick_against_entry (o : Object) (e : uint8) :
  -128 <= word.signed (cooking_tick o) <= 127
  /\ (128 <= word.unsigned e -> word.signed (cooking_tick o) <> word.unsigned e)
  /\ (cooking_tick o = e ->
      word.signed (cooking_tick o)
      = if word.unsigned e <=? 127 then word.unsigned e
        else word.unsigned e - 256)
  /\ (word.signed (cooking_tick o) = word.unsigned e ->
      cooking_tick o = e /\ word.unsigned e <= 127).
Proof.
  pose proof (cooking_tick_range o) as R.
  pose proof (uint8_range e) as Re.
  pose proof (uint8_range (cooking_tick o)) as Rc.
  split; [exact R|]. split; [lia|]. split.
  - intros <-. apply signed_of_byte.
  - intros E. rewrite signed_of_byte in E.
    destruct (Z.leb_spec (word.unsigned (cooking_tick o)) 127).
    + split; [apply word.unsigned_inj; exact E | lia].
    + lia.
Qed.

(** ** The counters of [WorldState] against [MAX_SIZE] *)

